(** * TodoMaster: the task record and its SQLite store

    A shallow embedding of [src/todomaster/tasks.py] and
    [src/todomaster/storage.py], together with the fragments of Python's
    [datetime] and of SQLite's query language that the store relies on.

    Layout: all definitions come first (Python values, the task record, the
    SQLite fragment, the store), then the lemmas and the theorems.

    Modelling conventions.
    - Characters are 8-bit [ascii] values and texts are [string]s; SQLite
      compares TEXT with the BINARY collation, i.e. byte by byte, which is
      [String.compare].
    - Datetimes are naive (no tzinfo), as every datetime built by the
      program is ([datetime.now()], [datetime.fromisoformat] of a naive text).
    - A call that raises is a [Raise]; the store threads the database
      explicitly: a method that writes returns the new database.
    - The wall clock is a parameter [now] of every function that reads it. *)

From Stdlib Require Import ZArith List String Ascii Bool Lia.
From Stdlib Require Import Permutation Sorted.
Import ListNotations.

Local Open Scope string_scope.
Local Open Scope Z_scope.

(* ===================================================================== *)
(** ** Exceptions *)
(* ===================================================================== *)

Inductive exn : Type := TypeError | ValueError | OverflowError.

Inductive result (A : Type) : Type :=
| Ok (a : A)
| Raise (e : exn).

Arguments Ok {A} a.
Arguments Raise {A} e.

Definition bind {A B : Type} (m : result A) (k : A -> result B) : result B :=
  match m with
  | Ok a => k a
  | Raise e => Raise e
  end.

Declare Scope result_scope.
Delimit Scope result_scope with result.
Notation "x <- m ;; k" := (bind m (fun x => k))
  (at level 61, m at next level, right associativity) : result_scope.
Local Open Scope result_scope.

(** A list comprehension [[f(x) for x in xs]]: the first call that raises
    aborts the whole comprehension. *)
Fixpoint mapM {A B : Type} (f : A -> result B) (l : list A) : result (list B) :=
  match l with
  | [] => Ok []
  | x :: l' => y <- f x ;; ys <- mapM f l' ;; Ok (y :: ys)
  end.

Definition of_option {A : Type} (e : exn) (o : option A) : result A :=
  match o with
  | Some a => Ok a
  | None => Raise e
  end.

(* ===================================================================== *)
(** ** Fixed-width decimal text *)
(* ===================================================================== *)

Module Text.

(** The character of a decimal digit [0 <= n <= 9]. *)
Definition digit (n : Z) : ascii := ascii_of_N (Z.to_N (48 + n)).

(** ["%0wd" % n] for [0 <= n < 10^w]: most significant digit first. *)
Fixpoint zfill (w : nat) (n : Z) : string :=
  match w with
  | O => EmptyString
  | S w' => String (digit ((n / 10 ^ Z.of_nat w') mod 10)) (zfill w' n)
  end.

Definition digit_val (c : ascii) : option Z :=
  let n := Z.of_N (N_of_ascii c) in
  if (48 <=? n) && (n <=? 57) then Some (n - 48) else None.

(** Reads exactly [w] decimal digits off the front of [s]. *)
Fixpoint take_digits (w : nat) (acc : Z) (s : string) : option (Z * string) :=
  match w with
  | O => Some (acc, s)
  | S w' =>
      match s with
      | EmptyString => None
      | String c s' =>
          match digit_val c with
          | Some d => take_digits w' (10 * acc + d) s'
          | None => None
          end
      end
  end.

(** Reads the character [c] off the front of [s]. *)
Definition expect (c : ascii) (s : string) : option string :=
  match s with
  | String c' s' => if Ascii.eqb c c' then Some s' else None
  | EmptyString => None
  end.

(** Python's [sep.join(l)]. *)
Fixpoint join (sep : string) (l : list string) : string :=
  match l with
  | [] => EmptyString
  | [x] => x
  | x :: l' => x ++ sep ++ join sep l'
  end.

(** Python's [s.split(",")], for a one-character separator: the pieces
    between the separators, the empty ones included; always at least one
    piece. *)
Fixpoint split_on (sep : ascii) (s : string) : list string :=
  match s with
  | EmptyString => [EmptyString]
  | String c s' =>
      if Ascii.eqb c sep then EmptyString :: split_on sep s'
      else match split_on sep s' with
           | [] => [String c EmptyString]
           | p :: ps => String c p :: ps
           end
  end.

(** [x in l] on a list of [str]: some element equals [x], with the exact,
    case-sensitive equality of [str]. *)
Definition mem (x : string) (l : list string) : bool :=
  existsb (String.eqb x) l.

Fixpoint occurs (c : ascii) (s : string) : bool :=
  match s with
  | EmptyString => false
  | String c' s' => Ascii.eqb c c' || occurs c s'
  end.

End Text.

(* ===================================================================== *)
(** ** Python's [date] and naive [datetime] *)
(* ===================================================================== *)

Module Pydatetime.
Import Text.

Record date : Type := mkdate { year : Z; month : Z; day : Z }.

Record datetime : Type := mkdatetime {
  date_of : date;            (* [dt.date()] *)
  hour : Z;
  minute : Z;
  second : Z;
  microsecond : Z
}.

Definition is_leap (y : Z) : bool :=
  (y mod 4 =? 0) && (negb (y mod 100 =? 0) || (y mod 400 =? 0)).

Definition days_in_month (y m : Z) : Z :=
  if m =? 2 then (if is_leap y then 29 else 28)
  else if (m =? 4) || (m =? 6) || (m =? 9) || (m =? 11) then 30
  else 31.

(** The range checks of the [date] and [datetime] constructors
    ([MINYEAR = 1], [MAXYEAR = 9999]). *)
Definition valid_date (d : date) : bool :=
  (1 <=? year d) && (year d <=? 9999) &&
  (1 <=? month d) && (month d <=? 12) &&
  (1 <=? day d) && (day d <=? days_in_month (year d) (month d)).

Definition valid_datetime (t : datetime) : bool :=
  valid_date (date_of t) &&
  (0 <=? hour t) && (hour t <? 24) &&
  (0 <=? minute t) && (minute t <? 60) &&
  (0 <=? second t) && (second t <? 60) &&
  (0 <=? microsecond t) && (microsecond t <? 1000000).

(** Lexicographic combination of comparisons. *)
Definition lex (c1 c2 : comparison) : comparison :=
  match c1 with
  | Eq => c2
  | _ => c1
  end.

(** The order of [date] and of naive [datetime]: chronological, i.e.
    field by field. *)
Definition date_compare (a b : date) : comparison :=
  lex (year a ?= year b) (lex (month a ?= month b) (day a ?= day b)).

Definition datetime_compare (a b : datetime) : comparison :=
  lex (date_compare (date_of a) (date_of b))
    (lex (hour a ?= hour b)
       (lex (minute a ?= minute b)
          (lex (second a ?= second b) (microsecond a ?= microsecond b)))).

Definition datetime_ltb (a b : datetime) : bool :=
  match datetime_compare a b with Lt => true | _ => false end.

Definition datetime_leb (a b : datetime) : bool :=
  match datetime_compare a b with Gt => false | _ => true end.

Definition datetime_gtb (a b : datetime) : bool :=
  match datetime_compare a b with Gt => true | _ => false end.

Definition date_eqb (a b : date) : bool :=
  (year a =? year b) && (month a =? month b) && (day a =? day b).

(** [date.isoformat()]: ["YYYY-MM-DD"]. *)
Definition date_isoformat (d : date) : string :=
  zfill 4 (year d) ++ "-" ++ zfill 2 (month d) ++ "-" ++ zfill 2 (day d).

(** ["HH:MM:SS"]. *)
Definition clock_text (t : datetime) : string :=
  zfill 2 (hour t) ++ ":" ++ zfill 2 (minute t) ++ ":" ++ zfill 2 (second t).

(** [datetime.isoformat()]: ["YYYY-MM-DDTHH:MM:SS"], followed by
    [".ffffff"] exactly when the microsecond is not zero. *)
Definition isoformat (t : datetime) : string :=
  date_isoformat (date_of t) ++ "T" ++ clock_text t ++
  (if microsecond t =? 0 then "" else "." ++ zfill 6 (microsecond t)).

Definition parse_date (s : string) : option (date * string) :=
  match take_digits 4 0 s with
  | None => None
  | Some (y, s1) =>
  match expect "-" s1 with
  | None => None
  | Some s2 =>
  match take_digits 2 0 s2 with
  | None => None
  | Some (m, s3) =>
  match expect "-" s3 with
  | None => None
  | Some s4 =>
  match take_digits 2 0 s4 with
  | None => None
  | Some (d, s5) =>
      let dt := mkdate y m d in
      if valid_date dt then Some (dt, s5) else None
  end end end end end.

Definition parse_clock (s : string) : option (Z * Z * Z * string) :=
  match take_digits 2 0 s with
  | None => None
  | Some (h, s1) =>
  match expect ":" s1 with
  | None => None
  | Some s2 =>
  match take_digits 2 0 s2 with
  | None => None
  | Some (mi, s3) =>
  match expect ":" s3 with
  | None => None
  | Some s4 =>
  match take_digits 2 0 s4 with
  | None => None
  | Some (sec, s5) => Some (h, mi, sec, s5)
  end end end end end.

Definition parse_fraction (s : string) : option Z :=
  match s with
  | EmptyString => Some 0
  | String c s1 =>
      if Ascii.eqb c "." then
        match take_digits 6 0 s1 with
        | Some (us, EmptyString) => Some us
        | _ => None
        end
      else None
  end.

(** [datetime.fromisoformat(s)] on the texts that [isoformat()] and
    [date.isoformat()] emit: a date, alone (midnight) or followed by one
    separator character and ["HH:MM:SS"] with an optional [".ffffff"].
    Out-of-range fields and every other text raise [ValueError]. (Recent
    Python versions accept further ISO 8601 spellings; the store never
    writes one.) *)
Definition parse_datetime (s : string) : option datetime :=
  match parse_date s with
  | None => None
  | Some (d, EmptyString) => Some (mkdatetime d 0 0 0 0)
  | Some (d, String _ s1) =>
      match parse_clock s1 with
      | None => None
      | Some (h, mi, sec, s2) =>
          match parse_fraction s2 with
          | None => None
          | Some us =>
              let t := mkdatetime d h mi sec us in
              if valid_datetime t then Some t else None
          end
      end
  end.

Definition fromisoformat (s : string) : result datetime :=
  of_option ValueError (parse_datetime s).

(** [d + timedelta(days=1)]; [OverflowError] past [date.max]. *)
Definition add_one_day (d : date) : result date :=
  if day d <? days_in_month (year d) (month d) then
    Ok (mkdate (year d) (month d) (day d + 1))
  else if month d <? 12 then Ok (mkdate (year d) (month d + 1) 1)
  else if year d <? 9999 then Ok (mkdate (year d + 1) 1 1)
  else Raise OverflowError.

(** The first instant of a calendar day. *)
Definition midnight (d : date) : datetime := mkdatetime d 0 0 0 0.

End Pydatetime.

Import Text Pydatetime.

(* ===================================================================== *)
(** ** tasks.py: the task record *)
(* ===================================================================== *)

Module Tasks.

Inductive Priority : Type := LOW | MEDIUM | HIGH.

(** [Priority.X.value]. *)
Definition Priority_value (p : Priority) : string :=
  match p with
  | LOW => "low"
  | MEDIUM => "medium"
  | HIGH => "high"
  end.

(** [Priority(text)]: lookup by value, [ValueError] on any other text. *)
Definition Priority_of_value (s : string) : result Priority :=
  if String.eqb s "low" then Ok LOW
  else if String.eqb s "medium" then Ok MEDIUM
  else if String.eqb s "high" then Ok HIGH
  else Raise ValueError.

Record Task : Type := mkTask {
  description : string;
  priority : Priority;
  due_date : option datetime;
  completed : bool;
  tags : list string;
  id : option Z;
  created_at : option datetime;
  updated_at : option datetime;
  completed_at : option datetime
}.

Definition set_due_date (v : option datetime) (t : Task) : Task :=
  mkTask (description t) (priority t) v (completed t) (tags t) (id t)
    (created_at t) (updated_at t) (completed_at t).
Definition set_completed (v : bool) (t : Task) : Task :=
  mkTask (description t) (priority t) (due_date t) v (tags t) (id t)
    (created_at t) (updated_at t) (completed_at t).
Definition set_tags (v : list string) (t : Task) : Task :=
  mkTask (description t) (priority t) (due_date t) (completed t) v (id t)
    (created_at t) (updated_at t) (completed_at t).
Definition set_id (v : option Z) (t : Task) : Task :=
  mkTask (description t) (priority t) (due_date t) (completed t) (tags t) v
    (created_at t) (updated_at t) (completed_at t).
Definition set_created_at (v : option datetime) (t : Task) : Task :=
  mkTask (description t) (priority t) (due_date t) (completed t) (tags t)
    (id t) v (updated_at t) (completed_at t).
Definition set_updated_at (v : option datetime) (t : Task) : Task :=
  mkTask (description t) (priority t) (due_date t) (completed t) (tags t)
    (id t) (created_at t) v (completed_at t).
Definition set_completed_at (v : option datetime) (t : Task) : Task :=
  mkTask (description t) (priority t) (due_date t) (completed t) (tags t)
    (id t) (created_at t) (updated_at t) v.

(** [__post_init__]: stamps both timestamps when [created_at] was not
    given; the clock is read once for each of them. *)
Definition __post_init__ (now1 now2 : datetime) (t : Task) : Task :=
  match created_at t with
  | None => set_updated_at (Some now2) (set_created_at (Some now1) t)
  | Some _ => t
  end.

(** [Task(description)] with every other field at its default. *)
Definition new_task (now1 now2 : datetime) (d : string) : Task :=
  __post_init__ now1 now2
    (mkTask d MEDIUM None false [] None None None None).

Definition is_overdue (now : datetime) (t : Task) : bool :=
  match due_date t with
  | None => false
  | Some d => if completed t then false else datetime_gtb now d
  end.

Definition is_due_today (now : datetime) (t : Task) : bool :=
  match due_date t with
  | None => false
  | Some d => date_eqb (date_of d) (date_of now)
  end.

Definition mark_completed (now1 now2 : datetime) (t : Task) : Task :=
  set_updated_at (Some now2)
    (set_completed_at (Some now1) (set_completed true t)).



Definition update_due_date (now : datetime) (d : option datetime) (t : Task)
  : Task :=
  set_updated_at (Some now) (set_due_date d t).

Definition add_tag (now : datetime) (tag : string) (t : Task) : Task :=
  if negb (mem tag (tags t)) then
    set_updated_at (Some now) (set_tags (tags t ++ [tag]) t)
  else t.

(** [list.remove(x)]: drops the first occurrence. *)
Fixpoint list_remove (x : string) (l : list string) : list string :=
  match l with
  | [] => []
  | y :: l' => if String.eqb x y then l' else y :: list_remove x l'
  end.

Definition remove_tag (now : datetime) (tag : string) (t : Task) : Task :=
  if mem tag (tags t) then
    set_updated_at (Some now) (set_tags (list_remove tag (tags t)) t)
  else t.

End Tasks.

Import Tasks.

(* ===================================================================== *)
(** ** The SQLite fragment used by the store *)
(* ===================================================================== *)

Module Sqlite.

(** SQL truth values: [None] is NULL. A WHERE clause keeps the rows on
    which its condition is true (neither false nor NULL). *)
Definition sql_and (a b : option bool) : option bool :=
  match a, b with
  | Some false, _ | _, Some false => Some false
  | Some true, Some true => Some true
  | _, _ => None
  end.

Definition sql_or (a b : option bool) : option bool :=
  match a, b with
  | Some true, _ | _, Some true => Some true
  | Some false, Some false => Some false
  | _, _ => None
  end.

Definition is_true (c : option bool) : bool :=
  match c with
  | Some true => true
  | _ => false
  end.

Definition is_not_null {A : Type} (v : option A) : option bool :=
  match v with
  | Some _ => Some true
  | None => Some false
  end.

(** [a = b] on INTEGER values. *)
Definition int_eq (a b : option Z) : option bool :=
  match a, b with
  | Some x, Some y => Some (x =? y)
  | _, _ => None
  end.

(** [a < b] and [a >= b] on TEXT values, BINARY collation. *)
Definition text_lt (a b : option string) : option bool :=
  match a, b with
  | Some x, Some y => Some (String.ltb x y)
  | _, _ => None
  end.

Definition text_ge (a b : option string) : option bool :=
  match a, b with
  | Some x, Some y => Some (negb (String.ltb x y))
  | _, _ => None
  end.

(** LIKE folds the case of the 26 ASCII letters only. *)
Definition fold_case (c : ascii) : ascii :=
  let n := N_of_ascii c in
  if (97 <=? n)%N && (n <=? 122)%N then ascii_of_N (n - 32) else c.

Definition eq_nocase (c d : ascii) : bool :=
  Ascii.eqb (fold_case c) (fold_case d).

(** [s LIKE p] without an ESCAPE clause: ['%'] in the pattern matches any
    run of characters (the empty one too), ['_'] matches exactly one
    character, any other character matches itself up to ASCII case. *)
Fixpoint like (p s : string) {struct p} : bool :=
  match p with
  | EmptyString =>
      match s with
      | EmptyString => true
      | String _ _ => false
      end
  | String c p' =>
      if Ascii.eqb c "%" then
        (fix skip (u : string) : bool :=
           like p' u ||
           match u with
           | EmptyString => false
           | String _ u' => skip u'
           end) s
      else if Ascii.eqb c "_" then
        match s with
        | EmptyString => false
        | String _ s' => like p' s'
        end
      else
        match s with
        | EmptyString => false
        | String d s' => eq_nocase c d && like p' s'
        end
  end.

Definition sql_like (v : option string) (p : string) : option bool :=
  match v with
  | Some s => Some (like p s)
  | None => None
  end.

(** The order of sort keys of a nullable TEXT column: NULL sorts before
    every text, texts in BINARY collation. *)
Definition key_compare (a b : option string) : comparison :=
  match a, b with
  | None, None => Eq
  | None, Some _ => Lt
  | Some _, None => Gt
  | Some x, Some y => String.compare x y
  end.

Definition key_le (a b : option string) : bool :=
  match key_compare a b with
  | Gt => false
  | _ => true
  end.

(** ORDER BY as an insertion sort of the rows in scan order. SQL leaves
    the relative order of rows with equal keys open; this sort keeps them
    in scan order. *)
Fixpoint insert_by {A : Type} (le : A -> A -> bool) (x : A) (l : list A)
  : list A :=
  match l with
  | [] => [x]
  | y :: l' => if le x y then x :: y :: l' else y :: insert_by le x l'
  end.

Fixpoint order_by {A : Type} (le : A -> A -> bool) (l : list A) : list A :=
  match l with
  | [] => []
  | x :: l' => insert_by le x (order_by le l')
  end.

Definition asc {A : Type} (key : A -> option string) (a b : A) : bool :=
  key_le (key a) (key b).

Definition desc {A : Type} (key : A -> option string) (a b : A) : bool :=
  key_le (key b) (key a).

(** [datetime('now')]: the current UTC time as ["YYYY-MM-DD HH:MM:SS"]. *)
Definition datetime_now (utc_now : datetime) : string :=
  date_isoformat (date_of utc_now) ++ " " ++ clock_text utc_now.

(** The sqlite3 module stores a Python [bool] as the INTEGER 1 or 0; the
    keywords TRUE and FALSE are 1 and 0. *)
Definition adapt_bool (b : bool) : Z := if b then 1 else 0.
Definition TRUE : Z := 1.
Definition FALSE : Z := 0.

End Sqlite.

Import Sqlite.

(* ===================================================================== *)
(** ** storage.py: the store *)
(* ===================================================================== *)

Module Storage.

(** A row of the table [tasks], in column order. [description] is NOT
    NULL and [completed] is always bound to a Python [bool], so neither
    is nullable here; the five nullable TEXT columns are options. *)
Record Row : Type := mkRow {
  r_id : Z;
  r_description : string;
  r_priority : string;
  r_due_date : option string;
  r_completed : Z;
  r_tags : option string;
  r_created_at : option string;
  r_updated_at : option string;
  r_completed_at : option string
}.

(** The database file: the table in rowid order, and the largest rowid
    ever handed out, which AUTOINCREMENT keeps in [sqlite_sequence]. *)
Record Db : Type := mkDb {
  rows : list Row;
  seq : Z
}.

Definition empty_db : Db := mkDb [] 0.

(** [_init_db]: CREATE TABLE IF NOT EXISTS; an existing file is kept. *)
Definition _init_db (file : option Db) : Db :=
  match file with
  | Some db => db
  | None => empty_db
  end.

Definition truthy (s : string) : bool :=
  match s with
  | EmptyString => false
  | String _ _ => true
  end.

(** [datetime.fromisoformat(v) if v else None]. *)
Definition optional_datetime (v : option string) : result (option datetime) :=
  match v with
  | None => Ok None
  | Some s =>
      if truthy s then d <- fromisoformat s ;; Ok (Some d) else Ok None
  end.

(** [datetime.fromisoformat(v)]: [None] is not a string. *)
Definition required_datetime (v : option string) : result datetime :=
  match v with
  | None => Raise TypeError
  | Some s => fromisoformat s
  end.

(** [tags.split(",") if tags else []]. *)
Definition tags_of_text (v : option string) : list string :=
  match v with
  | None => []
  | Some s => if truthy s then split_on "," s else []
  end.

Definition _task_from_row (row : Row) : result Task :=
  p <- Priority_of_value (r_priority row) ;;
  due <- optional_datetime (r_due_date row) ;;
  let done := negb (r_completed row =? 0) in
  let tgs := tags_of_text (r_tags row) in
  created <- required_datetime (r_created_at row) ;;
  updated <- required_datetime (r_updated_at row) ;;
  finished <- optional_datetime (r_completed_at row) ;;
  Ok (mkTask (r_description row) p due done tgs (Some (r_id row))
        (Some created) (Some updated) finished).

(** [",".join(task.tags) if task.tags else None]. *)
Definition text_of_tags (l : list string) : option string :=
  match l with
  | [] => None
  | _ :: _ => Some (join "," l)
  end.

(** [d.isoformat() if d else None]. *)
Definition text_of_datetime (d : option datetime) : option string :=
  match d with
  | Some t => Some (isoformat t)
  | None => None
  end.

Definition _task_to_row (task : Task)
  : string * string * option string * bool * option string *
    option string * option string * option string :=
  (description task,
   Priority_value (priority task),
   text_of_datetime (due_date task),
   completed task,
   text_of_tags (tags task),
   text_of_datetime (created_at task),
   text_of_datetime (updated_at task),
   text_of_datetime (completed_at task)).

Fixpoint max_rowid (l : list Row) : Z :=
  match l with
  | [] => 0
  | r :: l' => Z.max (r_id r) (max_rowid l')
  end.

(** The rowid of an INSERT that does not give one, under AUTOINCREMENT:
    one more than the largest rowid the table ever held. *)
Definition next_rowid (db : Db) : Z :=
  Z.max (seq db) (max_rowid (rows db)) + 1.

Definition create_task (db : Db) (task : Task) : Db * Task :=
  let '(d, p, due, c, tg, cr, up, co) := _task_to_row task in
  let i := next_rowid db in
  (mkDb (rows db ++ [mkRow i d p due (adapt_bool c) tg cr up co]) i,
   set_id (Some i) task).

Definition get_task (db : Db) (task_id : Z) : result (option Task) :=
  match find (fun r => r_id r =? task_id) (rows db) with
  | Some row => t <- _task_from_row row ;; Ok (Some t)
  | None => Ok None
  end.

Definition get_all_tasks (db : Db) : result (list Task) :=
  mapM _task_from_row (order_by (desc r_created_at) (rows db)).

Definition get_pending_tasks (db : Db) : result (list Task) :=
  mapM _task_from_row
    (order_by (desc r_created_at)
       (filter (fun r => r_completed r =? FALSE) (rows db))).

Definition get_completed_tasks (db : Db) : result (list Task) :=
  mapM _task_from_row
    (order_by (desc r_completed_at)
       (filter (fun r => r_completed r =? TRUE) (rows db))).

Definition overdue_where (bound : string) (r : Row) : bool :=
  is_true
    (sql_and (sql_and (Some (r_completed r =? FALSE))
                (is_not_null (r_due_date r)))
       (text_lt (r_due_date r) (Some bound))).

Definition get_overdue_tasks (now : datetime) (db : Db) : result (list Task) :=
  let now_text := isoformat now in
  mapM _task_from_row
    (order_by (asc r_due_date) (filter (overdue_where now_text) (rows db))).

Definition due_today_where (today tomorrow : string) (r : Row) : bool :=
  is_true
    (sql_and (sql_and (Some (r_completed r =? FALSE))
                (text_ge (r_due_date r) (Some today)))
       (text_lt (r_due_date r) (Some tomorrow))).

(** The clock is read twice, once for [today] and once for [tomorrow]. *)
Definition get_tasks_due_today (now1 now2 : datetime) (db : Db)
  : result (list Task) :=
  let today := date_isoformat (date_of now1) in
  next <- add_one_day (date_of now2) ;;
  let tomorrow := date_isoformat next in
  mapM _task_from_row
    (order_by (asc r_due_date)
       (filter (due_today_where today tomorrow) (rows db))).

(** The SET clause of [update_task]: every column but [id] and
    [created_at]. *)
Definition update_row (task : Task) (r : Row) : Row :=
  mkRow (r_id r)
    (description task)
    (Priority_value (priority task))
    (text_of_datetime (due_date task))
    (adapt_bool (completed task))
    (text_of_tags (tags task))
    (r_created_at r)
    (text_of_datetime (updated_at task))
    (text_of_datetime (completed_at task)).

Definition update_task (db : Db) (task : Task) : Db * Task :=
  (mkDb (map (fun r => if is_true (int_eq (Some (r_id r)) (id task))
                       then update_row task r else r) (rows db))
     (seq db),
   task).

Definition rowcount (before after : list Row) : Z :=
  Z.of_nat (List.length before) - Z.of_nat (List.length after).

Definition delete_task (db : Db) (task_id : Z) : Db * bool :=
  let kept := filter (fun r => negb (r_id r =? task_id)) (rows db) in
  (mkDb kept (seq db), rowcount (rows db) kept >? 0).

Definition clear_completed (db : Db) : Db * Z :=
  let kept := filter (fun r => negb (r_completed r =? TRUE)) (rows db) in
  (mkDb kept (seq db), rowcount (rows db) kept).

Definition search_where (pattern : string) (r : Row) : bool :=
  is_true
    (sql_or (sql_like (Some (r_description r)) pattern)
       (sql_like (r_tags r) pattern)).

Definition search_tasks (db : Db) (query : string) : result (list Task) :=
  let pattern := "%" ++ query ++ "%" in
  mapM _task_from_row
    (order_by (desc r_created_at) (filter (search_where pattern) (rows db))).

Record Stats : Type := mkStats {
  total : Z;
  pending : Z;
  completed_count : Z;   (* the key ["completed"] *)
  overdue : Z
}.

Definition count (f : Row -> bool) (l : list Row) : Z :=
  Z.of_nat (List.length (filter f l)).

(** The overdue count compares [due_date] with SQLite's own
    [datetime('now')], which is built from the UTC clock. *)
Definition get_task_stats (utc_now : datetime) (db : Db) : Stats :=
  mkStats
    (count (fun _ => true) (rows db))
    (count (fun r => r_completed r =? FALSE) (rows db))
    (count (fun r => r_completed r =? TRUE) (rows db))
    (count (overdue_where (datetime_now utc_now)) (rows db)).

(** *** Histories of the store *)

Inductive op : Type :=
| Create (t : Task)
| Update (t : Task)
| Delete (task_id : Z)
| ClearCompleted.

Definition apply_op (db : Db) (o : op) : Db :=
  match o with
  | Create t => fst (create_task db t)
  | Update t => fst (update_task db t)
  | Delete i => fst (delete_task db i)
  | ClearCompleted => fst (clear_completed db)
  end.

(** The database after a history of calls on a fresh file. *)
Definition run (ops : list op) : Db := fold_left apply_op ops empty_db.

Definition valid_optional (d : option datetime) : bool :=
  match d with
  | Some t => valid_datetime t
  | None => true
  end.

Definition valid_required (d : option datetime) : bool :=
  match d with
  | Some t => valid_datetime t
  | None => false
  end.

(** A task as the program builds them: every datetime it carries is a
    datetime Python can construct, and both timestamps are set (which
    [__post_init__] and every mutator ensure). *)
Definition stamped (t : Task) : bool :=
  valid_optional (due_date t) && valid_required (created_at t) &&
  valid_required (updated_at t) && valid_optional (completed_at t).

Definition stamped_op (o : op) : bool :=
  match o with
  | Create t | Update t => stamped t
  | Delete _ | ClearCompleted => true
  end.

(** Tags that survive the comma-joined column: no tag holds a comma, and
    the list is not the single empty tag. *)
Definition plain_tags (l : list string) : bool :=
  forallb (fun x => negb (occurs "," x)) l &&
  match l with
  | [EmptyString] => false
  | _ => true
  end.

End Storage.

Import Storage.

(* ===================================================================== *)
(** ** Invariants and specification predicates *)
(* ===================================================================== *)

Module Spec.

(** The texts found in the timestamp columns: what [isoformat] printed
    for a datetime Python can construct. *)
Definition iso_required (v : option string) : Prop :=
  exists d, valid_datetime d = true /\ v = Some (isoformat d).

Definition iso_optional (v : option string) : Prop :=
  exists o, valid_optional o = true /\ v = text_of_datetime o.

Definition row_ok (r : Row) : Prop :=
  (r_completed r = 0 \/ r_completed r = 1) /\
  (exists p, r_priority r = Priority_value p) /\
  iso_optional (r_due_date r) /\
  iso_required (r_created_at r) /\
  iso_required (r_updated_at r) /\
  iso_optional (r_completed_at r).

(** The completed column holds one of the two INTEGER truth values. *)
Definition flag_ok (r : Row) : Prop :=
  r_completed r = 0 \/ r_completed r = 1.

(** The primary key: rowids are unique and none exceeds the recorded
    sequence value. *)
Definition keys_ok (db : Db) : Prop :=
  NoDup (map r_id (rows db)) /\
  Forall (fun r => 0 < r_id r <= seq db) (rows db).

Definition db_ok (db : Db) : Prop :=
  Forall row_ok (rows db) /\ keys_ok db.

(** What holds of the table whatever tasks were written. *)
Definition table_ok (db : Db) : Prop :=
  Forall flag_ok (rows db) /\ keys_ok db.

(** [reads r t]: the task [t] carries the columns of the row [r]. *)
Definition reads (r : Row) (t : Task) : Prop :=
  id t = Some (r_id r) /\
  description t = r_description r /\
  Priority_value (priority t) = r_priority r /\
  completed t = negb (r_completed r =? 0) /\
  tags t = tags_of_text (r_tags r) /\
  text_of_datetime (due_date t) = r_due_date r /\
  text_of_datetime (created_at t) = r_created_at r /\
  text_of_datetime (updated_at t) = r_updated_at r /\
  text_of_datetime (completed_at t) = r_completed_at r /\
  stamped t = true.

(** Chronological order on optional datetimes, an absent one first. *)
Definition stamp_compare (a b : option datetime) : comparison :=
  match a, b with
  | None, None => Eq
  | None, Some _ => Lt
  | Some _, None => Gt
  | Some x, Some y => datetime_compare x y
  end.

Definition stamp_le (a b : option datetime) : Prop :=
  stamp_compare a b <> Gt.

Definition newest_first (l : list Task) : Prop :=
  Sorted (fun a b => stamp_le (created_at b) (created_at a)) l.

Definition soonest_due_first (l : list Task) : Prop :=
  Sorted (fun a b => stamp_le (due_date a) (due_date b)) l.

(** Overdue at the instant [now], in the words of the specification:
    not completed, a due date set, and that due date before [now]. *)
Definition overdue_at (now : datetime) (t : Task) : bool :=
  negb (completed t) &&
  match due_date t with
  | Some d => datetime_ltb d now
  | None => false
  end.

(** Not completed and due on a calendar date before the date of
    [utc_now]. *)
Definition overdue_by_date (utc_now : datetime) (t : Task) : bool :=
  negb (completed t) &&
  match due_date t with
  | Some d =>
      match date_compare (date_of d) (date_of utc_now) with
      | Lt => true
      | _ => false
      end
  | None => false
  end.

(** Due within the half-open interval from the start of [today] to the
    start of [tomorrow]. *)
Definition due_within (today tomorrow : date) (t : Task) : Prop :=
  exists d, due_date t = Some d /\
            datetime_leb (midnight today) d = true /\
            datetime_ltb d (midnight tomorrow) = true.

(** [q] occurs in [s] as a substring, up to ASCII case. *)
Fixpoint prefix_nocase (q s : string) : bool :=
  match q, s with
  | EmptyString, _ => true
  | String _ _, EmptyString => false
  | String c q', String d s' => eq_nocase c d && prefix_nocase q' s'
  end.

Fixpoint contains_nocase (q s : string) : bool :=
  prefix_nocase q s ||
  match s with
  | EmptyString => false
  | String _ s' => contains_nocase q s'
  end.

(** The search condition in the words of the specification, on a row:
    the query occurs in the description or in the comma-joined tags. *)
Definition substring_match (q : string) (r : Row) : bool :=
  contains_nocase q (r_description r) ||
  match r_tags r with
  | Some s => contains_nocase q s
  | None => false
  end.

(** A query without the two LIKE wildcards. *)
Definition wildcard_free (q : string) : bool :=
  negb (occurs "%" q) && negb (occurs "_" q).

End Spec.

Import Spec.

(* ===================================================================== *)
(** ** Sample data *)
(* ===================================================================== *)

Module Samples.

Definition at_time (h mi sec : Z) : datetime :=
  mkdatetime (mkdate 2024 1 15) h mi sec 0.

Definition noon : datetime := at_time 12 0 0.

(** The three tasks of the search scenario, created in this order. *)
Definition milk : Task :=
  set_tags ["shopping"] (new_task (at_time 8 0 0) (at_time 8 0 0) "Buy milk").
Definition bread : Task :=
  set_tags ["shopping"] (new_task (at_time 8 0 1) (at_time 8 0 1) "Buy bread").
Definition code : Task :=
  set_tags ["work"] (new_task (at_time 8 0 2) (at_time 8 0 2) "Write code").

Definition shop : Db := run [Create milk; Create bread; Create code].

(** A pending task due at nine in the morning of the day of [noon]. *)
Definition rent : Task :=
  set_due_date (Some (at_time 9 0 0))
    (new_task (at_time 8 0 0) (at_time 8 0 0) "Pay rent").

Definition rented : Db := run [Create rent].

(** A task with one tag that holds a comma. *)
Definition comma_task : Task :=
  set_tags ["a,b"] (new_task (at_time 8 0 0) (at_time 8 0 0) "x").

(** [bread] as stored under id 2, then completed at ten. *)
Definition bread_done : Task :=
  mark_completed (at_time 10 0 0) (at_time 10 0 0) (set_id (Some 2) bread).

(** A history with a due date, a completion, a delete and a clear. *)
Definition history : list op :=
  [Create milk; Create bread; Create rent; Update bread_done;
   Create code; Delete 4].

(** [rent] as stored under id 3 in [history], completed at eleven. *)
Definition rent_done : Task :=
  mark_completed (at_time 11 0 0) (at_time 11 0 0) (set_id (Some 3) rent).

(** The ids of the tasks a query returned. *)
Definition ids_of (l : result (list Task)) : result (list (option Z)) :=
  ts <- l ;; Ok (map id ts).

End Samples.

Import Samples.

(* ===================================================================== *)
(** ** utils.py: input helpers *)
(* ===================================================================== *)

Module Utils.

(** Texts typed by the user are taken to be ASCII: the whitespace class
    and the case mapping below are those of [str.strip], [str.lower],
    [\s] and [int] on the ASCII range. *)
Definition is_ascii (c : ascii) : bool := (N_of_ascii c <? 128)%N.

Fixpoint all_chars (f : ascii -> bool) (s : string) : bool :=
  match s with
  | EmptyString => true
  | String c s' => f c && all_chars f s'
  end.

Definition ascii_text (s : string) : bool := all_chars is_ascii s.

(** [c.isspace()]: tab, line feed, vertical tab, form feed, carriage
    return, the four separators 0x1c to 0x1f, and the blank. *)
Definition is_space (c : ascii) : bool :=
  let n := N_of_ascii c in
  ((9 <=? n) && (n <=? 13) || (28 <=? n) && (n <=? 32))%N.

Fixpoint lstrip (s : string) : string :=
  match s with
  | EmptyString => EmptyString
  | String c s' => if is_space c then lstrip s' else s
  end.

Fixpoint rstrip (s : string) : string :=
  match s with
  | EmptyString => EmptyString
  | String c s' =>
      match rstrip s' with
      | EmptyString => if is_space c then EmptyString else String c EmptyString
      | String d r => String c (String d r)
      end
  end.

(** [s.strip()]. *)
Definition strip (s : string) : string := rstrip (lstrip s).




(** The character class [[,;\s]]. *)
Definition is_tag_separator (c : ascii) : bool :=
  Ascii.eqb c "," || Ascii.eqb c ";" || is_space c.

(** [re.split] on a pattern [X+], [X] a character class: the pieces
    between the maximal runs of class characters, with an empty piece
    before a leading run and after a trailing one. [in_run] tells that the
    previous character was in the class. *)
Fixpoint re_split_runs (sep : ascii -> bool) (in_run : bool) (s : string)
  : list string :=
  match s with
  | EmptyString => [EmptyString]
  | String c s' =>
      if sep c then
        if in_run then re_split_runs sep true s'
        else EmptyString :: re_split_runs sep true s'
      else
        match re_split_runs sep false s' with
        | [] => [String c EmptyString]
        | p :: ps => String c p :: ps
        end
  end.

(** The list [tags] that the loop of [parse_tags] builds: the stripped
    pieces that are not empty, in order. *)
Definition tag_pieces (tags_str : string) : list string :=
  filter truthy
    (map strip (re_split_runs is_tag_separator false (strip tags_str))).

(** [parse_tags]. [list(set(tags))] keeps one copy of each tag, in an
    order that depends on the hashes of the run: [list_of_set] stands for
    it. *)
Definition parse_tags (list_of_set : list string -> list string)
  (tags_str : option string) : list string :=
  match tags_str with
  | None => []
  | Some s => if truthy s then list_of_set (tag_pieces s) else []
  end.


(** The digits of a decimal literal, single underscores allowed between
    digits; [after_digit] tells that the previous character was a digit. *)
Fixpoint int_digits (acc : Z) (after_digit : bool) (s : string) : option Z :=
  match s with
  | EmptyString => if after_digit then Some acc else None
  | String c s' =>
      match digit_val c with
      | Some d => int_digits (10 * acc + d) true s'
      | None =>
          if Ascii.eqb c "_" && after_digit then int_digits acc false s'
          else None
      end
  end.

(** [int(s)] in base ten: surrounding whitespace, an optional sign, then
    the digits; [None] stands for [ValueError]. *)
Definition int_of_text (s : string) : option Z :=
  match strip s with
  | String c r =>
      if Ascii.eqb c "+" then int_digits 0 false r
      else if Ascii.eqb c "-" then
        match int_digits 0 false r with
        | Some n => Some (- n)
        | None => None
        end
      else int_digits 0 false (String c r)
  | EmptyString => None
  end.

Definition validate_task_id (task_id_str : string) : option Z :=
  match int_of_text task_id_str with
  | Some task_id => if task_id >? 0 then Some task_id else None
  | None => None
  end.



(** [text[:k]]: the first [k] characters, or all but the last [-k] when
    [k] is negative. *)
Definition slice_to (k : Z) (text : string) : string :=
  if k <? 0 then
    substring 0 (Z.to_nat (Z.of_nat (String.length text) + k)) text
  else substring 0 (Z.to_nat k) text.

Definition truncate_text (text : string) (max_length : Z) : string :=
  if Z.of_nat (String.length text) <=? max_length then text
  else slice_to (max_length - 3) text ++ "...".

End Utils.

Import Utils.

(* ===================================================================== *)
(** ** ui.py: the counts under a table *)
(* ===================================================================== *)

Module Ui.




End Ui.

Import Ui.

(* ===================================================================== *)
(** ** cli.py: the commands *)
(* ===================================================================== *)

Module Cli.

(** A command is a function of the database file, of what the user typed
    and of the clock. What it prints is abstracted to an outcome that names
    the message or the table shown; [Failed] is the handler of
    [except Exception]. *)

Inductive done_outcome : Type :=
| DoneInvalidId
| DoneNotFound (task_id : Z)
| DoneAlready (task_id : Z)
| DoneCompleted (task_id : Z)
| DoneFailed (e : exn).

(** [done]; [now1] and [now2] are the two clock readings of
    [mark_completed]. *)
Definition done (now1 now2 : datetime) (db : Db) (task_id : string)
  : Db * done_outcome :=
  match validate_task_id task_id with
  | None => (db, DoneInvalidId)
  | Some task_id_int =>
      match get_task db task_id_int with
      | Raise e => (db, DoneFailed e)
      | Ok None => (db, DoneNotFound task_id_int)
      | Ok (Some task) =>
          if completed task then (db, DoneAlready task_id_int)
          else
            let task := mark_completed now1 now2 task in
            (fst (update_task db task), DoneCompleted task_id_int)
      end
  end.



Inductive today_outcome : Type :=
| TodayNothing                              (* "No tasks due today" *)
| TodayTables (overdue_table due_today_table : option (list Task))
| TodayFailed (e : exn).

Definition nonempty {A : Type} (l : list A) : bool :=
  match l with
  | [] => false
  | _ :: _ => true
  end.

(** [[task for task in tasks if f(task)]], the task at position [k]
    examined at the clock reading [read k]. *)
Fixpoint filter_at (f : nat -> Task -> bool) (k : nat) (tasks : list Task)
  : list Task :=
  match tasks with
  | [] => []
  | t :: ts =>
      if f k t then t :: filter_at f (S k) ts else filter_at f (S k) ts
  end.

(** [today]; [now1], [now2] are the readings of [get_tasks_due_today],
    [now3] the one of [get_overdue_tasks], [read k] the one of [is_overdue]
    on the task at position [k]. *)
Definition today (now1 now2 now3 : datetime) (read : nat -> datetime)
  (db : Db) : today_outcome :=
  match get_tasks_due_today now1 now2 db with
  | Raise e => TodayFailed e
  | Ok today_tasks =>
      match get_overdue_tasks now3 db with
      | Raise e => TodayFailed e
      | Ok overdue_tasks =>
          if negb (nonempty today_tasks) && negb (nonempty overdue_tasks)
          then TodayNothing
          else
            let today_only :=
              filter_at (fun k t => negb (is_overdue (read k) t)) 0
                today_tasks in
            TodayTables
              (if nonempty overdue_tasks then Some overdue_tasks else None)
              (if nonempty today_tasks && nonempty today_only
               then Some today_only else None)
      end
  end.













(** What the field updates and the tag loop of [edit] keep, on a task
    fetched under id [i]. *)
Definition kept (i : Z) (t0 t : Task) : Prop :=
  stamped t = true /\ plain_tags (tags t) = true /\ id t = Some i /\
  created_at t = created_at t0 /\ completed t = completed t0 /\
  completed_at t = completed_at t0.

(** What [list(set(...))] does, whatever the order: one copy of each
    element. *)
Definition set_order (list_of_set : list string -> list string) : Prop :=
  forall l, NoDup (list_of_set l) /\
            (forall x, In x (list_of_set l) <-> In x l).

End Cli.

Import Cli.

(* ===================================================================== *)
(** ** Sample inputs of the commands *)
(* ===================================================================== *)

Module Inputs.

(** One order [list(set(...))] can give: first occurrences dropped, last
    kept. *)
Definition last_copies : list string -> list string := nodup string_dec.



(** The history of the database [shop], and [bread] as stored in it. *)
Definition shop_history : list op := [Create milk; Create bread; Create code].

Definition stored_bread : Task := set_id (Some 2) bread.

Definition ten : datetime := at_time 10 0 0.

End Inputs.

Import Inputs.

(* ===================================================================== *)
(** ** Further orders on listings *)
(* ===================================================================== *)

Module Orders.

(** From the most recently completed task to the one completed first. *)
Definition latest_completed_first (l : list Task) : Prop :=
  Sorted (fun a b => stamp_le (completed_at b) (completed_at a)) l.

(** [a] is not after [b]. *)
Definition not_after (a b : datetime) : Prop := datetime_compare a b <> Gt.

End Orders.

Import Orders.

(* ===================================================================== *)
(** * Properties *)
(* ===================================================================== *)

(** ** Decimal text: reading back and ordering *)

Section DecimalText.

Lemma digit_val_digit d : 0 <= d <= 9 -> digit_val (digit d) = Some d.
Proof.
  intros H.
  assert (E : d = 0 \/ d = 1 \/ d = 2 \/ d = 3 \/ d = 4 \/ d = 5 \/ d = 6
              \/ d = 7 \/ d = 8 \/ d = 9) by lia.
  repeat (destruct E as [E | E]; [subst d; reflexivity |]).
  subst d; reflexivity.
Qed.

Lemma compare_digit a b :
  0 <= a <= 9 -> 0 <= b <= 9 ->
  Ascii.compare (digit a) (digit b) = (a ?= b).
Proof.
  intros Ha Hb. unfold Ascii.compare, digit.
  rewrite !N_ascii_embedding by lia.
  rewrite Z2N.inj_compare by lia.
  apply Z.add_compare_mono_l.
Qed.

Lemma pow10_pos k : 0 < 10 ^ Z.of_nat k.
Proof. apply Z.pow_pos_nonneg; lia. Qed.

Lemma pow10_succ k : 10 ^ Z.of_nat (S k) = 10 ^ Z.of_nat k * 10.
Proof. rewrite Nat2Z.inj_succ, Z.pow_succ_r by lia. lia. Qed.

(** The leading digit and the remaining digits recombine. *)
Lemma mod_pow10_succ n k :
  n mod 10 ^ Z.of_nat (S k)
  = 10 ^ Z.of_nat k * ((n / 10 ^ Z.of_nat k) mod 10) + n mod 10 ^ Z.of_nat k.
Proof.
  rewrite pow10_succ.
  rewrite Z.rem_mul_r by (pose proof (pow10_pos k); lia). lia.
Qed.

Lemma digit_range n k : 0 <= (n / 10 ^ Z.of_nat k) mod 10 <= 9.
Proof.
  pose proof (Z.mod_pos_bound (n / 10 ^ Z.of_nat k) 10). lia.
Qed.

Lemma length_zfill w n : String.length (zfill w n) = w.
Proof. induction w; simpl; congruence. Qed.

Lemma take_digits_zfill w : forall acc n rest,
  take_digits w acc (zfill w n ++ rest)
  = Some (acc * 10 ^ Z.of_nat w + n mod 10 ^ Z.of_nat w, rest).
Proof.
  induction w as [| w IH]; intros acc n rest.
  - simpl. rewrite Z.mod_1_r. do 2 f_equal. lia.
  - cbn [zfill take_digits String.append].
    rewrite digit_val_digit by apply digit_range.
    rewrite IH. rewrite mod_pow10_succ, pow10_succ. do 2 f_equal. lia.
Qed.

Lemma take_digits_zfill_small w n rest :
  0 <= n < 10 ^ Z.of_nat w ->
  take_digits w 0 (zfill w n ++ rest) = Some (n, rest).
Proof.
  intros H. rewrite take_digits_zfill, Z.mod_small by lia. reflexivity.
Qed.

Lemma compare_zfill_mod w : forall a b,
  String.compare (zfill w a) (zfill w b)
  = (a mod 10 ^ Z.of_nat w ?= b mod 10 ^ Z.of_nat w).
Proof.
  induction w as [| w IH]; intros a b.
  - simpl. rewrite !Z.mod_1_r. reflexivity.
  - cbn [zfill String.compare].
    rewrite compare_digit by apply digit_range.
    rewrite !mod_pow10_succ.
    pose proof (digit_range a w) as Ha. pose proof (digit_range b w) as Hb.
    pose proof (pow10_pos w) as Hp.
    pose proof (Z.mod_pos_bound a (10 ^ Z.of_nat w) Hp) as Hra.
    pose proof (Z.mod_pos_bound b (10 ^ Z.of_nat w) Hp) as Hrb.
    set (p := 10 ^ Z.of_nat w) in *.
    set (da := (a / p) mod 10) in *. set (db := (b / p) mod 10) in *.
    destruct (Z.compare_spec da db) as [E | E | E].
    + rewrite IH. fold p. rewrite E.
      destruct (Z.compare_spec (a mod p) (b mod p)) as [F | F | F];
        symmetry;
        [ apply Z.compare_eq_iff | apply Z.compare_lt_iff
        | apply Z.compare_gt_iff ]; nia.
    + symmetry. apply Z.compare_lt_iff. nia.
    + symmetry. apply Z.compare_gt_iff. nia.
Qed.

Lemma compare_zfill w a b :
  0 <= a < 10 ^ Z.of_nat w -> 0 <= b < 10 ^ Z.of_nat w ->
  String.compare (zfill w a) (zfill w b) = (a ?= b).
Proof.
  intros Ha Hb. rewrite compare_zfill_mod, !Z.mod_small by lia. reflexivity.
Qed.

End DecimalText.

(** ** Byte-wise comparison of texts *)

Section TextOrder.

Lemma ascii_compare_refl c : Ascii.compare c c = Eq.
Proof. unfold Ascii.compare. apply N.compare_refl. Qed.

Lemma compare_refl s : String.compare s s = Eq.
Proof.
  induction s as [| c s IH]; simpl; [reflexivity |].
  rewrite ascii_compare_refl. exact IH.
Qed.

Lemma append_assoc (a b c : string) : ((a ++ b) ++ c = a ++ (b ++ c))%string.
Proof. induction a as [| x a IH]; simpl; congruence. Qed.

Lemma length_append (a b : string) :
  String.length (a ++ b) = (String.length a + String.length b)%nat.
Proof. induction a as [| x a IH]; simpl; congruence. Qed.

(** Texts with prefixes of one length compare by the prefixes first. *)
Lemma compare_append a : forall b x y,
  String.length a = String.length b ->
  String.compare (a ++ x) (b ++ y)
  = lex (String.compare a b) (String.compare x y).
Proof.
  induction a as [| c a IH]; intros [| d b] x y L; try discriminate.
  - reflexivity.
  - simpl in *. destruct (Ascii.compare c d); try reflexivity.
    apply IH. congruence.
Qed.

Lemma compare_append_same a x y :
  String.compare (a ++ x) (a ++ y) = String.compare x y.
Proof.
  rewrite compare_append by reflexivity. rewrite compare_refl. reflexivity.
Qed.

Lemma lex_assoc a b c : lex (lex a b) c = lex a (lex b c).
Proof. destruct a; reflexivity. Qed.

Lemma lex_eq_r a : lex a Eq = a.
Proof. destruct a; reflexivity. Qed.

End TextOrder.

(** ** ISO texts of dates and datetimes *)

Section IsoText.

Lemma days_in_month_bound y m : 28 <= days_in_month y m <= 31.
Proof.
  unfold days_in_month.
  destruct (m =? 2); [destruct (is_leap y); lia |].
  destruct ((m =? 4) || (m =? 6) || (m =? 9) || (m =? 11)); lia.
Qed.

Lemma valid_date_bounds d :
  valid_date d = true ->
  1 <= year d <= 9999 /\ 1 <= month d <= 12 /\
  1 <= day d <= days_in_month (year d) (month d).
Proof.
  unfold valid_date. rewrite !andb_true_iff, !Z.leb_le. lia.
Qed.

Lemma valid_datetime_bounds t :
  valid_datetime t = true ->
  valid_date (date_of t) = true /\ 0 <= hour t < 24 /\ 0 <= minute t < 60 /\
  0 <= second t < 60 /\ 0 <= microsecond t < 1000000.
Proof.
  unfold valid_datetime.
  rewrite !andb_true_iff, !Z.leb_le, !Z.ltb_lt. intuition lia.
Qed.


Ltac width :=
  match goal with
  | |- _ <= _ < 10 ^ Z.of_nat ?w =>
      let v := eval compute in (10 ^ Z.of_nat w) in
      change (10 ^ Z.of_nat w) with v; lia
  end.

Lemma length_date_isoformat d : String.length (date_isoformat d) = 10%nat.
Proof.
  unfold date_isoformat. rewrite !length_append, !length_zfill. reflexivity.
Qed.

Lemma compare_date_isoformat_append a b x y :
  valid_date a = true -> valid_date b = true ->
  String.compare (date_isoformat a ++ x) (date_isoformat b ++ y)
  = lex (date_compare a b) (String.compare x y).
Proof.
  intros Ha Hb.
  apply valid_date_bounds in Ha. apply valid_date_bounds in Hb.
  pose proof (days_in_month_bound (year a) (month a)).
  pose proof (days_in_month_bound (year b) (month b)).
  unfold date_isoformat, date_compare. rewrite !append_assoc.
  rewrite compare_append by (rewrite !length_zfill; reflexivity).
  rewrite compare_zfill by width. rewrite lex_assoc. f_equal.
  cbn [String.append String.compare]. rewrite ascii_compare_refl.
  rewrite compare_append by (rewrite !length_zfill; reflexivity).
  rewrite compare_zfill by width. rewrite lex_assoc. f_equal.
  cbn [String.append String.compare]. rewrite ascii_compare_refl.
  rewrite compare_append by (rewrite !length_zfill; reflexivity).
  rewrite compare_zfill by width. reflexivity.
Qed.

Lemma compare_date_isoformat a b :
  valid_date a = true -> valid_date b = true ->
  String.compare (date_isoformat a) (date_isoformat b) = date_compare a b.
Proof.
  intros Ha Hb.
  pose proof (compare_date_isoformat_append a b "" "" Ha Hb) as H.
  assert (E : forall s : string, (s ++ "")%string = s)
    by (induction s; simpl; congruence).
  rewrite !E in H. rewrite H. simpl. apply lex_eq_r.
Qed.

Lemma compare_clock_text_append a b x y :
  valid_datetime a = true -> valid_datetime b = true ->
  String.compare (clock_text a ++ x) (clock_text b ++ y)
  = lex (hour a ?= hour b)
      (lex (minute a ?= minute b)
         (lex (second a ?= second b) (String.compare x y))).
Proof.
  intros Ha Hb.
  apply valid_datetime_bounds in Ha. apply valid_datetime_bounds in Hb.
  unfold clock_text. rewrite !append_assoc.
  rewrite compare_append by (rewrite !length_zfill; reflexivity).
  rewrite compare_zfill by width. f_equal.
  cbn [String.append String.compare]. rewrite ascii_compare_refl.
  rewrite compare_append by (rewrite !length_zfill; reflexivity).
  rewrite compare_zfill by width. f_equal.
  cbn [String.append String.compare]. rewrite ascii_compare_refl.
  rewrite compare_append by (rewrite !length_zfill; reflexivity).
  rewrite compare_zfill by width. reflexivity.
Qed.

(** The optional [".ffffff"] suffix orders like the microsecond. *)
Lemma compare_fraction a b :
  0 <= a < 1000000 -> 0 <= b < 1000000 ->
  String.compare (if a =? 0 then "" else "." ++ zfill 6 a)
                 (if b =? 0 then "" else "." ++ zfill 6 b)
  = (a ?= b).
Proof.
  intros Ha Hb.
  destruct (Z.eqb_spec a 0) as [Ea | Ea], (Z.eqb_spec b 0) as [Eb | Eb].
  - subst. reflexivity.
  - subst. cbn [String.append String.compare]. symmetry.
    apply Z.compare_lt_iff. lia.
  - subst. cbn [String.append String.compare]. symmetry.
    apply Z.compare_gt_iff. lia.
  - cbn [String.append String.compare]. rewrite ascii_compare_refl.
    apply compare_zfill; width.
Qed.

(** The texts of [isoformat] order like the datetimes they print. *)
Lemma compare_isoformat a b :
  valid_datetime a = true -> valid_datetime b = true ->
  String.compare (isoformat a) (isoformat b) = datetime_compare a b.
Proof.
  intros Ha Hb.
  destruct (valid_datetime_bounds a Ha) as (Hda & _ & _ & _ & Hua).
  destruct (valid_datetime_bounds b Hb) as (Hdb & _ & _ & _ & Hub).
  unfold isoformat, datetime_compare.
  rewrite compare_date_isoformat_append by assumption. f_equal.
  cbn [String.append String.compare]. rewrite ascii_compare_refl.
  rewrite compare_clock_text_append by assumption.
  rewrite compare_fraction by assumption. reflexivity.
Qed.

(** An [isoformat] text against a bare date text: the date decides, and
    on the same date the longer text is the larger. *)
Lemma compare_isoformat_date t d :
  valid_datetime t = true -> valid_date d = true ->
  String.compare (isoformat t) (date_isoformat d)
  = lex (date_compare (date_of t) d) Gt.
Proof.
  intros Ht Hd. destruct (valid_datetime_bounds t Ht) as (Hdt & _).
  assert (E : date_isoformat d = (date_isoformat d ++ "")%string).
  { generalize (date_isoformat d). induction s; simpl; congruence. }
  rewrite E. unfold isoformat.
  rewrite compare_date_isoformat_append by assumption. reflexivity.
Qed.

(** An [isoformat] text against a [datetime('now')] text: the date
    decides, and on the same date ['T'] is above the blank. *)
Lemma compare_isoformat_datetime_now t u :
  valid_datetime t = true -> valid_datetime u = true ->
  String.compare (isoformat t) (datetime_now u)
  = lex (date_compare (date_of t) (date_of u)) Gt.
Proof.
  intros Ht Hu. destruct (valid_datetime_bounds t Ht) as (Hdt & _).
  destruct (valid_datetime_bounds u Hu) as (Hdu & _).
  unfold isoformat, datetime_now.
  rewrite compare_date_isoformat_append by assumption. reflexivity.
Qed.

Lemma parse_date_isoformat d rest :
  valid_date d = true ->
  parse_date (date_isoformat d ++ rest) = Some (d, rest).
Proof.
  intros Hd. pose proof (valid_date_bounds d Hd) as B.
  pose proof (days_in_month_bound (year d) (month d)).
  unfold parse_date, date_isoformat. rewrite !append_assoc.
  rewrite take_digits_zfill_small by width.
  cbn [String.append expect Ascii.eqb Bool.eqb].
  rewrite take_digits_zfill_small by width.
  cbn [String.append expect Ascii.eqb Bool.eqb].
  rewrite take_digits_zfill_small by width.
  destruct d as [y m dd]. simpl in *. rewrite Hd. reflexivity.
Qed.

Lemma parse_clock_text t rest :
  valid_datetime t = true ->
  parse_clock (clock_text t ++ rest)
  = Some (hour t, minute t, second t, rest).
Proof.
  intros Ht. pose proof (valid_datetime_bounds t Ht) as B.
  unfold parse_clock, clock_text. rewrite !append_assoc.
  rewrite take_digits_zfill_small by width.
  cbn [String.append expect Ascii.eqb Bool.eqb].
  rewrite take_digits_zfill_small by width.
  cbn [String.append expect Ascii.eqb Bool.eqb].
  rewrite take_digits_zfill_small by width. reflexivity.
Qed.

Lemma parse_fraction_text us :
  0 <= us < 1000000 ->
  parse_fraction (if us =? 0 then "" else "." ++ zfill 6 us) = Some us.
Proof.
  intros H. destruct (Z.eqb_spec us 0) as [E | E].
  - subst. reflexivity.
  - cbn [String.append parse_fraction Ascii.eqb Bool.eqb].
    assert (Z6 : zfill 6 us = (zfill 6 us ++ "")%string).
    { generalize (zfill 6 us). induction s; simpl; congruence. }
    rewrite Z6, take_digits_zfill_small by width. reflexivity.
Qed.

(** [fromisoformat] reads back what [isoformat] wrote. *)
Lemma fromisoformat_isoformat t :
  valid_datetime t = true -> fromisoformat (isoformat t) = Ok t.
Proof.
  intros Ht. destruct (valid_datetime_bounds t Ht) as (Hd & _ & _ & _ & Hus).
  unfold fromisoformat, parse_datetime, isoformat.
  rewrite parse_date_isoformat by assumption.
  cbn [String.append].
  rewrite parse_clock_text by assumption.
  rewrite parse_fraction_text by assumption.
  destruct t as [d h mi s us]. simpl in *. rewrite Ht. reflexivity.
Qed.

Lemma truthy_isoformat t : truthy (isoformat t) = true.
Proof. reflexivity. Qed.

End IsoText.

(** ** List comprehensions that may raise *)

Section Comprehension.
Context {A B : Type} (f : A -> result B).

Lemma mapM_Forall2 l : forall l',
  mapM f l = Ok l' <-> Forall2 (fun a b => f a = Ok b) l l'.
Proof.
  induction l as [| x l IH]; intros l'; simpl.
  - split; intros H.
    + injection H as <-. constructor.
    + inversion H. reflexivity.
  - split; intros H.
    + destruct (f x) as [y |] eqn:Fx; simpl in H; [| discriminate].
      destruct (mapM f l) as [ys |] eqn:M; simpl in H; [| discriminate].
      injection H as <-. constructor; [exact Fx |]. apply IH. reflexivity.
    + inversion H as [| a b la lb Fx Hl]; subst.
      rewrite Fx. simpl. apply IH in Hl. rewrite Hl. reflexivity.
Qed.

Lemma mapM_In l l' b :
  mapM f l = Ok l' -> (In b l' <-> exists a, In a l /\ f a = Ok b).
Proof.
  rewrite mapM_Forall2. intros H.
  induction H as [| x y l l' Fx H IH]; simpl.
  - split; [tauto | intros (a & [] & _)].
  - rewrite IH. split.
    + intros [-> | (a & Ha & Fa)]; eauto.
    + intros (a & [-> | Ha] & Fa); [left; congruence | right; eauto].
Qed.

Lemma mapM_app l1 l2 r1 r2 :
  mapM f l1 = Ok r1 -> mapM f l2 = Ok r2 ->
  mapM f (l1 ++ l2) = Ok (r1 ++ r2)%list.
Proof.
  rewrite !mapM_Forall2. apply Forall2_app.
Qed.

Lemma mapM_app_inv l1 l2 r :
  mapM f (l1 ++ l2) = Ok r ->
  exists r1 r2, mapM f l1 = Ok r1 /\ mapM f l2 = Ok r2 /\ r = (r1 ++ r2)%list.
Proof.
  rewrite mapM_Forall2. intros H.
  apply Forall2_app_inv_l in H as (r1 & r2 & H1 & H2 & ->).
  exists r1, r2. rewrite !mapM_Forall2. auto.
Qed.

Lemma mapM_total (P : A -> B -> Prop) l :
  Forall (fun a => exists b, f a = Ok b /\ P a b) l ->
  exists l', mapM f l = Ok l' /\ Forall2 P l l'.
Proof.
  induction 1 as [| x l (y & Fx & Px) _ (l' & M & F2)].
  - exists []. split; constructor.
  - exists (y :: l'). simpl. rewrite Fx, M. split; [reflexivity |].
    constructor; assumption.
Qed.

Lemma mapM_Permutation l1 l2 :
  Permutation l1 l2 -> forall r1,
  mapM f l1 = Ok r1 -> exists r2, mapM f l2 = Ok r2 /\ Permutation r1 r2.
Proof.
  induction 1 as [| x l1 l2 _ IH | x y l | l1 l2 l3 _ IH1 _ IH2]; intros r1 M.
  - exists r1. split; [exact M | reflexivity].
  - simpl in *. destruct (f x) as [b |]; simpl in *; [| discriminate].
    destruct (mapM f l1) as [r |]; simpl in *; [| discriminate].
    injection M as <-. destruct (IH r eq_refl) as (r2 & -> & P).
    exists (b :: r2). split; [reflexivity | now constructor].
  - simpl in *. destruct (f y) as [b |]; simpl in *; [| discriminate].
    destruct (f x) as [c |]; simpl in *; [| discriminate].
    destruct (mapM f l) as [r |]; simpl in *; [| discriminate].
    injection M as <-. exists (c :: b :: r). split; [reflexivity | constructor].
  - destruct (IH1 r1 M) as (r2 & M2 & P12).
    destruct (IH2 r2 M2) as (r3 & M3 & P23).
    exists r3. split; [exact M3 | now transitivity r2].
Qed.

End Comprehension.

(** ** ORDER BY *)

Section OrderBy.
Context {A : Type} (le : A -> A -> bool).

Lemma insert_by_Permutation x l : Permutation (insert_by le x l) (x :: l).
Proof.
  induction l as [| y l IH]; simpl; [reflexivity |].
  destruct (le x y); [reflexivity |].
  rewrite IH. constructor.
Qed.

Lemma order_by_Permutation l : Permutation (order_by le l) l.
Proof.
  induction l as [| x l IH]; simpl; [reflexivity |].
  rewrite insert_by_Permutation. now constructor.
Qed.

Lemma order_by_In x l : In x (order_by le l) <-> In x l.
Proof.
  split; apply Permutation_in;
    [| symmetry]; apply order_by_Permutation.
Qed.

Hypothesis le_total : forall a b, le a b = true \/ le b a = true.

Lemma insert_by_Sorted x l :
  Sorted (fun a b => le a b = true) l ->
  Sorted (fun a b => le a b = true) (insert_by le x l).
Proof.
  induction 1 as [| y l S IH Hd]; simpl.
  - repeat constructor.
  - destruct (le x y) eqn:E.
    + repeat constructor; assumption.
    + constructor; [exact IH |].
      destruct l as [| z l]; simpl.
      * constructor. destruct (le_total x y); congruence.
      * inversion Hd; subst.
        destruct (le x z); constructor;
          [destruct (le_total x y); congruence | assumption].
Qed.

Lemma order_by_Sorted l : Sorted (fun a b => le a b = true) (order_by le l).
Proof.
  induction l as [| x l IH]; simpl; [constructor |].
  now apply insert_by_Sorted.
Qed.

End OrderBy.

Section SortedTransfer.
Context {A B : Type} (P : A -> B -> Prop).
Context (R : A -> A -> Prop) (R' : B -> B -> Prop).
Hypothesis transfer :
  forall a b a' b', P a a' -> P b b' -> R a b -> R' a' b'.

Lemma Sorted_Forall2 l l' : Forall2 P l l' -> Sorted R l -> Sorted R' l'.
Proof.
  induction 1 as [| a a' l l' Pa F IH]; intros S; [constructor |].
  inversion S as [| ? ? S' Hd]; subst.
  constructor; [now apply IH |].
  destruct F as [| b b' l l' Pb F]; constructor.
  inversion Hd; subst. eapply transfer; eassumption.
Qed.

End SortedTransfer.

Section KeyOrder.

Lemma key_le_total a b : key_le a b = true \/ key_le b a = true.
Proof.
  unfold key_le, key_compare.
  destruct a as [x |], b as [y |]; auto.
  rewrite (String.compare_antisym y x).
  destruct (String.compare x y); simpl; auto.
Qed.

Lemma asc_total {A : Type} (key : A -> option string) a b :
  asc key a b = true \/ asc key b a = true.
Proof. apply key_le_total. Qed.

Lemma desc_total {A : Type} (key : A -> option string) a b :
  desc key a b = true \/ desc key b a = true.
Proof. apply key_le_total. Qed.

(** On the texts of valid datetimes the key order is the chronological
    order. *)
Lemma key_le_stamps a b :
  valid_optional a = true -> valid_optional b = true ->
  key_le (text_of_datetime a) (text_of_datetime b) = true ->
  stamp_le a b.
Proof.
  unfold key_le, stamp_le, key_compare, stamp_compare, text_of_datetime,
    valid_optional.
  destruct a as [x |], b as [y |]; intros Ha Hb H; try congruence.
  rewrite compare_isoformat in H by assumption.
  destruct (datetime_compare x y); congruence.
Qed.

End KeyOrder.

(** ** Rows and the tasks read from them *)

Section Rows.

Lemma Priority_of_value_value p : Priority_of_value (Priority_value p) = Ok p.
Proof. destruct p; reflexivity. Qed.

Lemma optional_datetime_text o :
  valid_optional o = true -> optional_datetime (text_of_datetime o) = Ok o.
Proof.
  destruct o as [d |]; simpl; intros H; [| reflexivity].
  rewrite fromisoformat_isoformat by assumption. reflexivity.
Qed.

Lemma required_datetime_text o :
  valid_required o = true ->
  exists d, o = Some d /\ required_datetime (text_of_datetime o) = Ok d.
Proof.
  destruct o as [d |]; simpl; intros H; [| discriminate].
  exists d. split; [reflexivity |]. now apply fromisoformat_isoformat.
Qed.

Lemma iso_optional_text o :
  valid_optional o = true -> iso_optional (text_of_datetime o).
Proof. intros H. exists o. auto. Qed.

Lemma iso_required_text o :
  valid_required o = true -> iso_required (text_of_datetime o).
Proof.
  destruct o as [d |]; simpl; intros H; [| discriminate]. exists d. auto.
Qed.

Lemma stamped_fields t :
  stamped t = true ->
  valid_optional (due_date t) = true /\ valid_required (created_at t) = true /\
  valid_required (updated_at t) = true /\ valid_optional (completed_at t) = true.
Proof. unfold stamped. rewrite !andb_true_iff. tauto. Qed.

(** Reading a well-formed row never raises, and returns its columns. *)
Lemma _task_from_row_ok r :
  row_ok r -> exists t, _task_from_row r = Ok t /\ reads r t.
Proof.
  intros (Hc & (p & Hp) & (due & Vdue & Hdue) & (cr & Vcr & Hcr)
          & (up & Vup & Hup) & (co & Vco & Hco)).
  unfold _task_from_row.
  rewrite Hp, Priority_of_value_value, Hdue, Hcr, Hup, Hco.
  rewrite !optional_datetime_text by assumption.
  cbn [bind required_datetime].
  rewrite !fromisoformat_isoformat by assumption.
  cbn [bind]. eexists. split; [reflexivity |].
  unfold reads, stamped. cbn. rewrite Vdue, Vcr, Vup, Vco.
  repeat split; reflexivity || (symmetry; assumption).
Qed.

Lemma _task_from_row_reads r t :
  row_ok r -> _task_from_row r = Ok t -> reads r t.
Proof.
  intros Hr Ht. destruct (_task_from_row_ok r Hr) as (t' & E & R).
  congruence.
Qed.

(** A whole well-formed table is read without raising. *)
Lemma read_rows l :
  Forall row_ok l ->
  exists ts, mapM _task_from_row l = Ok ts /\ Forall2 reads l ts.
Proof.
  intros H. apply mapM_total. revert H. apply Forall_impl.
  apply _task_from_row_ok.
Qed.

End Rows.

(** ** Invariants of the store *)

Section Invariants.

Lemma max_rowid_nonneg l : 0 <= max_rowid l.
Proof. induction l; simpl; lia. Qed.

Lemma max_rowid_ge l r : In r l -> r_id r <= max_rowid l.
Proof.
  induction l as [| x l IH]; simpl; [tauto |].
  intros [-> | H]; [lia | specialize (IH H); lia].
Qed.

Lemma next_rowid_fresh db r : In r (rows db) -> r_id r < next_rowid db.
Proof. intros H. apply max_rowid_ge in H. unfold next_rowid. lia. Qed.

Lemma NoDup_map_filter {A B : Type} (f : A -> B) (p : A -> bool) l :
  NoDup (map f l) -> NoDup (map f (filter p l)).
Proof.
  induction l as [| x l IH]; simpl; intros H; [constructor |].
  inversion H as [| ? ? Hx Hl]; subst.
  destruct (p x); simpl; [| auto].
  constructor; [| auto].
  intros Hin. apply Hx. apply in_map_iff in Hin as (y & E & Hy).
  apply filter_In in Hy as (Hy & _). apply in_map_iff. eauto.
Qed.

Lemma Forall_filter {A : Type} (P : A -> Prop) (p : A -> bool) l :
  Forall P l -> Forall P (filter p l).
Proof.
  rewrite !Forall_forall. intros H x Hx.
  apply filter_In in Hx as (Hx & _). auto.
Qed.

Lemma row_ok_insert i t :
  stamped t = true ->
  row_ok (mkRow i (description t) (Priority_value (priority t))
            (text_of_datetime (due_date t)) (adapt_bool (completed t))
            (text_of_tags (tags t)) (text_of_datetime (created_at t))
            (text_of_datetime (updated_at t))
            (text_of_datetime (completed_at t))).
Proof.
  intros H. destruct (stamped_fields t H) as (H1 & H2 & H3 & H4).
  unfold row_ok. cbn.
  repeat split; eauto using iso_optional_text, iso_required_text.
  destruct (completed t); simpl; auto.
Qed.

Lemma row_ok_update t r :
  stamped t = true -> row_ok r -> row_ok (update_row t r).
Proof.
  intros H (_ & _ & _ & Hcr & _).
  destruct (stamped_fields t H) as (H1 & H2 & H3 & H4).
  unfold row_ok, update_row. cbn.
  repeat split; eauto using iso_optional_text, iso_required_text.
  destruct (completed t); simpl; auto.
Qed.

Lemma create_task_keys db t :
  keys_ok db -> keys_ok (fst (create_task db t)).
Proof.
  intros (Hnd & Hseq). unfold create_task, _task_to_row. cbn.
  split; cbn.
  - rewrite map_app. cbn.
    apply NoDup_app; [assumption | repeat constructor; simpl; tauto |].
    intros i Hi [<- | []].
    apply in_map_iff in Hi as (r & E & Hr).
    apply next_rowid_fresh in Hr. lia.
  - apply Forall_app. split.
    + rewrite Forall_forall in *. intros r Hr.
      pose proof (Hseq r Hr). unfold next_rowid. lia.
    + constructor; [| constructor]. cbn. unfold next_rowid.
      pose proof (max_rowid_nonneg (rows db)). lia.
Qed.

Lemma update_task_ids db t :
  map r_id (rows (fst (update_task db t))) = map r_id (rows db).
Proof.
  unfold update_task. cbn. rewrite map_map. apply map_ext.
  intros r. destruct (is_true _); reflexivity.
Qed.

Lemma update_task_keys db t :
  keys_ok db -> keys_ok (fst (update_task db t)).
Proof.
  intros (Hnd & Hseq). split.
  - rewrite update_task_ids. assumption.
  - unfold update_task. cbn. apply Forall_map.
    revert Hseq. apply Forall_impl. intros r Hr.
    destruct (is_true _); assumption.
Qed.

Lemma filter_keys db p :
  keys_ok db -> keys_ok (mkDb (filter p (rows db)) (seq db)).
Proof.
  intros (Hnd & Hseq). split; cbn.
  - now apply NoDup_map_filter.
  - now apply Forall_filter.
Qed.

Lemma apply_op_keys db o : keys_ok db -> keys_ok (apply_op db o).
Proof.
  destruct o as [t | t | i |]; simpl; intros Hdb.
  - now apply create_task_keys.
  - now apply update_task_keys.
  - now apply filter_keys.
  - now apply filter_keys.
Qed.

Lemma apply_op_flags db o :
  Forall flag_ok (rows db) -> Forall flag_ok (rows (apply_op db o)).
Proof.
  assert (Flag : forall b, adapt_bool b = 0 \/ adapt_bool b = 1)
    by (intros []; simpl; auto).
  destruct o as [t | t | i |]; simpl; intros H.
  - unfold create_task, _task_to_row. cbn. apply Forall_app. split; [assumption |].
    constructor; [apply Flag | constructor].
  - unfold update_task. cbn. apply Forall_map.
    revert H. apply Forall_impl. intros r Hr.
    destruct (is_true _); [apply Flag | assumption].
  - now apply Forall_filter.
  - now apply Forall_filter.
Qed.

Lemma apply_op_rows db o :
  stamped_op o = true ->
  Forall row_ok (rows db) -> Forall row_ok (rows (apply_op db o)).
Proof.
  destruct o as [t | t | i |]; simpl; intros Ho H.
  - unfold create_task, _task_to_row. cbn. apply Forall_app. split; [assumption |].
    constructor; [now apply row_ok_insert | constructor].
  - unfold update_task. cbn. apply Forall_map.
    revert H. apply Forall_impl. intros r Hr.
    destruct (is_true _); [now apply row_ok_update | assumption].
  - now apply Forall_filter.
  - now apply Forall_filter.
Qed.

Lemma apply_op_ok db o :
  stamped_op o = true -> db_ok db -> db_ok (apply_op db o).
Proof.
  intros Ho (Hrows & Hkeys). split.
  - now apply apply_op_rows.
  - now apply apply_op_keys.
Qed.

Lemma empty_db_ok : db_ok empty_db.
Proof. repeat split; constructor. Qed.

Lemma fold_ops_ok ops : forall db,
  forallb stamped_op ops = true -> db_ok db ->
  db_ok (fold_left apply_op ops db).
Proof.
  induction ops as [| o ops IH]; simpl; intros db H Hdb; [assumption |].
  apply andb_true_iff in H as (Ho & Hops).
  apply IH; [assumption |]. now apply apply_op_ok.
Qed.

(** Every database reached from a fresh file by calls on stamped tasks
    satisfies the invariant. *)
Lemma run_ok ops : forallb stamped_op ops = true -> db_ok (run ops).
Proof. intros H. apply fold_ops_ok; [assumption | apply empty_db_ok]. Qed.

Lemma fold_ops_table ops : forall db,
  table_ok db -> table_ok (fold_left apply_op ops db).
Proof.
  induction ops as [| o ops IH]; simpl; intros db Hdb; [assumption |].
  apply IH. destruct Hdb as (Hf & Hk). split.
  - now apply apply_op_flags.
  - now apply apply_op_keys.
Qed.

(** Whatever tasks are passed, the completed column holds 0 or 1 and the
    rowids are unique. *)
Lemma run_table ops : table_ok (run ops).
Proof. apply fold_ops_table. repeat split; constructor. Qed.

End Invariants.

(** ** The task record: tags *)

Section Tags.

Lemma mem_In x l : mem x l = true <-> In x l.
Proof.
  unfold mem. rewrite existsb_exists. split.
  - intros (y & Hy & E). apply String.eqb_eq in E. now subst.
  - intros H. exists x. split; [assumption | apply String.eqb_refl].
Qed.

Lemma mem_not_In x l : mem x l = false <-> ~ In x l.
Proof.
  rewrite <- mem_In. destruct (mem x l); split; congruence.
Qed.

End Tags.

(** C8. [add_tag] compares with exact, case-sensitive string equality:
    a tag already in the list leaves the task as it is, [updated_at]
    included; a tag not in the list is appended at the end and [updated_at]
    is set to the clock reading, every other field kept. A second call with
    the same tag, at any later instant, changes nothing, so the tags after
    two calls are the tags after one. *)
Theorem add_tag_appends_once (now : datetime) (x : string) (t : Task) :
  (In x (tags t) -> add_tag now x t = t) /\
  (~ In x (tags t) ->
   add_tag now x t
   = set_updated_at (Some now) (set_tags (tags t ++ [x]) t)) /\
  (forall now', add_tag now' x (add_tag now x t) = add_tag now x t) /\
  (forall now', tags (add_tag now' x (add_tag now x t))
                = tags (add_tag now x t)).
Proof.
  assert (Twice : forall now', add_tag now' x (add_tag now x t) = add_tag now x t).
  { intros now'. destruct (mem x (tags t)) eqn:M.
    - assert (E : add_tag now x t = t)
        by (unfold add_tag; rewrite M; reflexivity).
      rewrite E. unfold add_tag. rewrite M. reflexivity.
    - assert (E : add_tag now x t
                  = set_updated_at (Some now) (set_tags (tags t ++ [x]) t))
        by (unfold add_tag; rewrite M; reflexivity).
      rewrite E. unfold add_tag. cbn [tags set_updated_at set_tags].
      replace (mem x (tags t ++ [x])) with true; [reflexivity |].
      symmetry. apply mem_In, in_or_app. right. now left. }
  repeat split.
  - intros H. apply mem_In in H. unfold add_tag. rewrite H. reflexivity.
  - intros H. apply mem_not_In in H. unfold add_tag. rewrite H. reflexivity.
  - exact Twice.
  - intros now'. rewrite Twice. reflexivity.
Qed.

(** ** The store: writes *)

Section Writes.


Lemma filter_all {A : Type} (p : A -> bool) l :
  (forall x, In x l -> p x = true) -> filter p l = l.
Proof.
  induction l as [| x l IH]; simpl; intros H; [reflexivity |].
  rewrite H by auto. rewrite IH by auto. reflexivity.
Qed.





End Writes.


(** C9. For a task carrying the id [i], [update_task] returns the task as
    it was and keeps the number and the order of the rows and the sequence
    value. Position by position: the row keeps its [id] and its
    [created_at]; a row with another id is unchanged; the row with id [i]
    receives the description, priority, due date, completed flag, tags,
    [updated_at] and [completed_at] of the task. *)
Theorem update_task_frame (db : Db) (t : Task) (i : Z) :
  id t = Some i ->
  snd (update_task db t) = t /\
  seq (fst (update_task db t)) = seq db /\
  List.length (rows (fst (update_task db t))) = List.length (rows db) /\
  forall n r, nth_error (rows db) n = Some r ->
    exists r', nth_error (rows (fst (update_task db t))) n = Some r' /\
      r_id r' = r_id r /\
      r_created_at r' = r_created_at r /\
      (r_id r <> i -> r' = r) /\
      (r_id r = i ->
         r_description r' = description t /\
         r_priority r' = Priority_value (priority t) /\
         r_due_date r' = text_of_datetime (due_date t) /\
         r_completed r' = adapt_bool (completed t) /\
         r_tags r' = text_of_tags (tags t) /\
         r_updated_at r' = text_of_datetime (updated_at t) /\
         r_completed_at r' = text_of_datetime (completed_at t)).
Proof.
  intros Hid. unfold update_task. cbn [fst snd rows seq].
  rewrite Hid. repeat split.
  - apply length_map.
  - intros n r Hn. eexists. split.
    + rewrite nth_error_map, Hn. reflexivity.
    + cbn [is_true int_eq].
      destruct (Z.eqb_spec (r_id r) i) as [E | E]; cbn.
      * repeat split; intros; reflexivity || contradiction.
      * repeat split; intros; reflexivity || contradiction.
Qed.


(** ** The comma-joined tags column *)

Section TagsColumn.

Lemma split_on_plain x :
  occurs "," x = false -> split_on "," x = [x].
Proof.
  induction x as [| c x IH]; cbn [occurs split_on]; [reflexivity |].
  rewrite (Ascii.eqb_sym c). intros H. apply orb_false_iff in H as (Hc & Hx).
  rewrite Hc, IH by assumption. reflexivity.
Qed.

Lemma split_on_append x rest :
  occurs "," x = false ->
  split_on "," (x ++ "," ++ rest) = x :: split_on "," rest.
Proof.
  induction x as [| c x IH]; cbn [occurs split_on String.append].
  - intros _. rewrite Ascii.eqb_refl. reflexivity.
  - rewrite (Ascii.eqb_sym c). intros H.
    apply orb_false_iff in H as (Hc & Hx).
    rewrite Hc. cbn [String.append] in IH. rewrite IH by assumption.
    reflexivity.
Qed.

Lemma split_join x l :
  forallb (fun y => negb (occurs "," y)) (x :: l) = true ->
  split_on "," (join "," (x :: l)) = x :: l.
Proof.
  revert x. induction l as [| y l IH]; intros x H.
  - simpl in *. rewrite andb_true_r in H. apply negb_true_iff in H.
    now apply split_on_plain.
  - change (join "," (x :: y :: l)) with (x ++ "," ++ join "," (y :: l))%string.
    cbn [forallb] in H. apply andb_true_iff in H as (Hx & Hl).
    apply negb_true_iff in Hx.
    rewrite split_on_append by assumption. f_equal. now apply IH.
Qed.

Lemma truthy_append_comma x rest : truthy (x ++ "," ++ rest) = true.
Proof. destruct x; reflexivity. Qed.

(** Tags without commas, other than the single empty tag, are read back
    as they were written. *)
Lemma tags_of_text_of_tags l :
  plain_tags l = true -> tags_of_text (text_of_tags l) = l.
Proof.
  unfold plain_tags. intros H. apply andb_true_iff in H as (Hc & Hne).
  destruct l as [| x l]; [reflexivity |].
  unfold text_of_tags, tags_of_text.
  replace (truthy (join "," (x :: l))) with true.
  - now apply split_join.
  - destruct l as [| y l].
    + destruct x; [discriminate | reflexivity].
    + symmetry. apply truthy_append_comma.
Qed.

End TagsColumn.

(** ** The store: create, then get *)

Section CreateGet.

Lemma find_fresh {A : Type} (p : A -> bool) l x :
  (forall y, In y l -> p y = false) -> p x = true ->
  find p (l ++ [x]) = Some x.
Proof.
  induction l as [| y l IH]; simpl; intros H Hx.
  - rewrite Hx. reflexivity.
  - rewrite H by auto. apply IH; auto.
Qed.

Lemma adapt_bool_back b : negb (adapt_bool b =? 0) = b.
Proof. destruct b; reflexivity. Qed.

(** What reading the row written for a stamped task gives: the task,
    with the row's id and with the tags as the column returns them. *)
Lemma _task_from_row_written i t :
  stamped t = true ->
  _task_from_row
    (mkRow i (description t) (Priority_value (priority t))
       (text_of_datetime (due_date t)) (adapt_bool (completed t))
       (text_of_tags (tags t)) (text_of_datetime (created_at t))
       (text_of_datetime (updated_at t))
       (text_of_datetime (completed_at t)))
  = Ok (set_tags (tags_of_text (text_of_tags (tags t))) (set_id (Some i) t)).
Proof.
  intros H. destruct (stamped_fields t H) as (H1 & H2 & H3 & H4).
  destruct (required_datetime_text _ H2) as (cr & Ecr & Rcr).
  destruct (required_datetime_text _ H3) as (up & Eup & Rup).
  unfold _task_from_row. cbn [r_id r_description r_priority r_due_date
    r_completed r_tags r_created_at r_updated_at r_completed_at].
  rewrite Priority_of_value_value, !optional_datetime_text by assumption.
  rewrite Rcr, Rup. cbn [bind]. rewrite adapt_bool_back.
  destruct t; cbn in *. subst. reflexivity.
Qed.

Lemma get_created db t :
  stamped t = true ->
  get_task (fst (create_task db t)) (next_rowid db)
  = Ok (Some (set_tags (tags_of_text (text_of_tags (tags t)))
                (set_id (Some (next_rowid db)) t))).
Proof.
  intros H. unfold get_task, create_task, _task_to_row.
  cbn [fst rows].
  rewrite find_fresh.
  - rewrite _task_from_row_written by assumption. reflexivity.
  - intros r Hr. apply next_rowid_fresh in Hr. apply Z.eqb_neq. lia.
  - apply Z.eqb_refl.
Qed.

End CreateGet.

(** C2, as amended. For a stamped task whose tags hold no comma and are
    not the single empty tag, and for every database, [create_task] returns
    the task with a fresh id set, and [get_task] at that id returns without
    raising a task equal to the created one in every field: the original
    task with only the id changed. *)
Theorem create_then_get_round_trip (db : Db) (t : Task) :
  stamped t = true -> plain_tags (tags t) = true ->
  exists i,
    (forall r, In r (rows db) -> r_id r <> i) /\
    snd (create_task db t) = set_id (Some i) t /\
    get_task (fst (create_task db t)) i = Ok (Some (set_id (Some i) t)).
Proof.
  intros Hs Hp. exists (next_rowid db). split; [| split].
  - intros r Hr. apply next_rowid_fresh in Hr. lia.
  - reflexivity.
  - rewrite get_created by assumption.
    rewrite tags_of_text_of_tags by assumption.
    destruct t; reflexivity.
Qed.

(** ** The store: queries *)

Section Queries.

Lemma Forall_Permutation {A : Type} (P : A -> Prop) l l' :
  Permutation l l' -> Forall P l -> Forall P l'.
Proof.
  intros HP. rewrite !Forall_forall. intros H x Hx.
  apply H. eapply Permutation_in; [symmetry |]; eassumption.
Qed.

(** A SELECT over a well-formed table, with any WHERE and ORDER BY,
    returns without raising the tasks of the selected rows, in order. *)
Lemma select_returns db (p : Row -> bool) (le : Row -> Row -> bool) :
  db_ok db ->
  exists l,
    mapM _task_from_row (order_by le (filter p (rows db))) = Ok l /\
    Forall2 reads (order_by le (filter p (rows db))) l.
Proof.
  intros (Hrows & _). apply read_rows.
  apply Forall_Permutation with (l := filter p (rows db)).
  - symmetry. apply order_by_Permutation.
  - now apply Forall_filter.
Qed.

Lemma select_In db (p : Row -> bool) (le : Row -> Row -> bool) l t :
  mapM _task_from_row (order_by le (filter p (rows db))) = Ok l ->
  (In t l <->
   exists r, In r (rows db) /\ p r = true /\ _task_from_row r = Ok t).
Proof.
  intros M. rewrite (mapM_In _ _ _ _ M). split.
  - intros (r & Hr & Fr). apply order_by_In, filter_In in Hr. exists r. tauto.
  - intros (r & Hr & Pr & Fr). exists r. split; [| assumption].
    apply order_by_In, filter_In. tauto.
Qed.

Lemma filter_true {A : Type} (l : list A) : filter (fun _ => true) l = l.
Proof. apply filter_all. reflexivity. Qed.

Lemma get_all_tasks_select db :
  get_all_tasks db
  = mapM _task_from_row
      (order_by (desc r_created_at) (filter (fun _ => true) (rows db))).
Proof. rewrite filter_true. reflexivity. Qed.

Lemma valid_required_optional o :
  valid_required o = true -> valid_optional o = true.
Proof. destruct o; [auto | discriminate]. Qed.

Lemma reads_valid r t :
  reads r t ->
  valid_optional (due_date t) = true /\
  valid_optional (created_at t) = true /\
  valid_optional (completed_at t) = true.
Proof.
  intros R. destruct R as (_ & _ & _ & _ & _ & _ & _ & _ & _ & S).
  destruct (stamped_fields t S) as (H1 & H2 & H3 & H4).
  auto using valid_required_optional.
Qed.

(** Rows in descending text order of [created_at] are tasks from the
    newest to the oldest. *)
Lemma newest_first_of_rows l ts :
  Forall2 reads l ts ->
  Sorted (fun a b => desc r_created_at a b = true) l ->
  newest_first ts.
Proof.
  apply Sorted_Forall2. intros a b a' b' Ra Rb H.
  destruct (reads_valid a a' Ra) as (_ & Va & _).
  destruct (reads_valid b b' Rb) as (_ & Vb & _).
  destruct Ra as (_ & _ & _ & _ & _ & _ & Ea & _).
  destruct Rb as (_ & _ & _ & _ & _ & _ & Eb & _).
  unfold desc in H. rewrite <- Ea, <- Eb in H.
  now apply key_le_stamps.
Qed.

(** Rows in ascending text order of [due_date] are tasks from the
    earliest due date to the latest. *)
Lemma soonest_due_first_of_rows l ts :
  Forall2 reads l ts ->
  Sorted (fun a b => asc r_due_date a b = true) l ->
  soonest_due_first ts.
Proof.
  apply Sorted_Forall2. intros a b a' b' Ra Rb H.
  destruct (reads_valid a a' Ra) as (Va & _).
  destruct (reads_valid b b' Rb) as (Vb & _).
  destruct Ra as (_ & _ & _ & _ & _ & Ea & _).
  destruct Rb as (_ & _ & _ & _ & _ & Eb & _).
  unfold asc in H. rewrite <- Ea, <- Eb in H.
  now apply key_le_stamps.
Qed.

Lemma Forall2_length_eq {A B : Type} (P : A -> B -> Prop) l l' :
  Forall2 P l l' -> List.length l = List.length l'.
Proof. induction 1; simpl; congruence. Qed.

Lemma Forall2_In_l {A B : Type} (P : A -> B -> Prop) l l' a :
  Forall2 P l l' -> In a l -> exists b, In b l' /\ P a b.
Proof.
  induction 1 as [| x y l l' Pxy _ IH]; simpl; [tauto |].
  intros [-> | H]; [eauto |].
  destruct (IH H) as (b & Hb & Pb). eauto.
Qed.

Lemma like_any s : like "%" s = true.
Proof.
  cbn [like]. rewrite Ascii.eqb_refl.
  induction s as [| c s IH]; [reflexivity |].
  rewrite IH. apply orb_true_r.
Qed.

(** The pattern built for the empty query matches every text. *)
Lemma like_any_any s : like "%%" s = true.
Proof.
  change (like "%%" s) with
    ((fix skip (u : string) : bool :=
        like "%" u ||
        match u with
        | EmptyString => false
        | String _ u' => skip u'
        end) s).
  destruct s; rewrite like_any; reflexivity.
Qed.

Lemma search_where_empty_query r : search_where ("%" ++ "" ++ "%") r = true.
Proof.
  unfold search_where, sql_like. cbn [String.append].
  rewrite like_any_any. destruct (r_tags r); reflexivity.
Qed.

End Queries.

(** C10. On every database the search for the empty query is the listing
    of all tasks, result or exception alike: the pattern built for it
    matches every description, whatever the tags column holds. And in
    every database reached from a fresh file by calls on stamped tasks it
    returns without raising one task for each row of the table, tagged or
    not, from the newest [created_at] to the oldest. *)
Theorem search_empty_query_lists_all (ops : list op) :
  forallb stamped_op ops = true ->
  (forall db, search_tasks db "" = get_all_tasks db) /\
  exists l,
    search_tasks (run ops) "" = Ok l /\
    get_all_tasks (run ops) = Ok l /\
    List.length l = List.length (rows (run ops)) /\
    (forall r, In r (rows (run ops)) -> exists t, In t l /\ reads r t) /\
    newest_first l.
Proof.
  intros Hops.
  assert (Same : forall db, search_tasks db "" = get_all_tasks db).
  { intros db. unfold search_tasks.
    rewrite (filter_all (search_where ("%" ++ "" ++ "%")))
      by (intros; apply search_where_empty_query).
    reflexivity. }
  split; [exact Same |].
  pose proof (run_ok ops Hops) as Hdb.
  set (db := run ops) in *.
  destruct (select_returns db (fun _ => true) (desc r_created_at) Hdb)
    as (l & M & R).
  rewrite filter_true in M, R.
  exists l. split; [| split; [exact M | split; [| split]]].
  - rewrite Same. exact M.
  - rewrite <- (Forall2_length_eq _ _ _ R).
    apply Permutation_length, order_by_Permutation.
  - intros r Hr. apply (Forall2_In_l _ _ _ r R). now apply order_by_In.
  - eapply newest_first_of_rows; [exact R |].
    apply order_by_Sorted, desc_total.
Qed.

Section Partition.

Lemma filter_completed_Permutation l :
  Forall flag_ok l ->
  Permutation
    (filter (fun r => r_completed r =? FALSE) l ++
     filter (fun r => r_completed r =? TRUE) l)%list
    l.
Proof.
  induction 1 as [| r l Hc _ IH]; simpl; [constructor |].
  unfold FALSE, TRUE in *. destruct Hc as [-> | ->]; simpl.
  - now constructor.
  - symmetry. apply Permutation_cons_app. now symmetry.
Qed.

Lemma Forall2_In_r {A B : Type} (P : A -> B -> Prop) l l' b :
  Forall2 P l l' -> In b l' -> exists a, In a l /\ P a b.
Proof.
  induction 1 as [| x y l l' Pxy _ IH]; simpl; [tauto |].
  intros [-> | H]; [eauto |].
  destruct (IH H) as (a & Ha & Pa). eauto.
Qed.

(** Whatever the row, a task read from it carries its id and its
    completed flag. *)
Lemma _task_from_row_basic r t :
  _task_from_row r = Ok t ->
  id t = Some (r_id r) /\ completed t = negb (r_completed r =? 0).
Proof.
  unfold _task_from_row.
  destruct (Priority_of_value _); cbn [bind]; [| discriminate].
  destruct (optional_datetime (r_due_date r)); cbn [bind]; [| discriminate].
  destruct (required_datetime (r_created_at r)); cbn [bind]; [| discriminate].
  destruct (required_datetime (r_updated_at r)); cbn [bind]; [| discriminate].
  destruct (optional_datetime (r_completed_at r)); cbn [bind]; [| discriminate].
  intros E. injection E as <-. split; reflexivity.
Qed.

(** Distinct rowids give distinct tasks. *)
Lemma NoDup_tasks l ts :
  Forall2 (fun r t => _task_from_row r = Ok t) l ts ->
  NoDup (map r_id l) -> NoDup ts.
Proof.
  induction 1 as [| r t l ts Rrt F IH]; simpl; intros ND; [constructor |].
  inversion ND as [| ? ? Hr Hl]; subst.
  constructor; [| auto].
  intros Hin. destruct (Forall2_In_r _ _ _ t F Hin) as (r' & Hr' & Rr't).
  apply Hr. apply in_map_iff. exists r'. split; [| assumption].
  apply _task_from_row_basic in Rrt as (E & _).
  apply _task_from_row_basic in Rr't as (E' & _). congruence.
Qed.

Lemma selected_completed (p : Z) le l ts t :
  mapM _task_from_row
    (order_by le (filter (fun r => r_completed r =? p) l)) = Ok ts ->
  In t ts -> completed t = negb (p =? 0).
Proof.
  intros M Ht. apply (mapM_In _ _ _ _ M) in Ht as (r & Hr & Fr).
  apply order_by_In, filter_In in Hr as (_ & Hc).
  apply _task_from_row_basic in Fr as (_ & E).
  apply Z.eqb_eq in Hc. now subst.
Qed.

End Partition.

(** C3. After any history of creates, updates (and deletes) on a fresh
    file: whenever the listing of all tasks returns, the listings of the
    pending and of the completed tasks return too; the pending tasks
    followed by the completed tasks are a rearrangement of all tasks, which
    has no task twice, and no task is in both, the pending ones having
    [completed = false] and the completed ones [true]. And when the tasks
    written were stamped, the listing of all tasks does return. *)
Theorem pending_completed_partition_all (ops : list op) :
  (forall la, get_all_tasks (run ops) = Ok la ->
     exists lp lc,
       get_pending_tasks (run ops) = Ok lp /\
       get_completed_tasks (run ops) = Ok lc /\
       Permutation (lp ++ lc) la /\
       NoDup la /\
       (forall t, In t lp -> completed t = false) /\
       (forall t, In t lc -> completed t = true) /\
       (forall t, In t lp -> In t lc -> False)) /\
  (forallb stamped_op ops = true ->
   exists la, get_all_tasks (run ops) = Ok la).
Proof.
  pose proof (run_table ops) as (Hflags & Hnd & _).
  set (db := run ops) in *. split.
  - intros la Ma. unfold get_all_tasks in Ma.
    assert (P : Permutation
                  (order_by (desc r_created_at) (rows db))
                  (order_by (desc r_created_at)
                     (filter (fun r => r_completed r =? FALSE) (rows db)) ++
                   order_by (desc r_completed_at)
                     (filter (fun r => r_completed r =? TRUE) (rows db)))%list).
    { rewrite !order_by_Permutation. symmetry.
      now apply filter_completed_Permutation. }
    destruct (mapM_Permutation _task_from_row _ _ P _ Ma) as (l' & M' & P').
    apply mapM_app_inv in M' as (lp & lc & Mp & Mc & ->).
    assert (Pending : forall t, In t lp -> completed t = false)
      by (intros t; apply (selected_completed FALSE _ _ _ t Mp)).
    assert (Completed : forall t, In t lc -> completed t = true)
      by (intros t; apply (selected_completed TRUE _ _ _ t Mc)).
    exists lp, lc.
    split; [exact Mp |]. split; [exact Mc |].
    split; [now symmetry |].
    split; [| split; [exact Pending | split; [exact Completed |]]].
    + apply mapM_Forall2 in Ma. apply (NoDup_tasks _ _ Ma).
      eapply Permutation_NoDup; [| exact Hnd].
      apply Permutation_map. symmetry. apply order_by_Permutation.
    + intros t Hp Hc. apply Pending in Hp. apply Completed in Hc. congruence.
  - intros Hops. pose proof (run_ok ops Hops) as Hdb. fold db in Hdb.
    destruct (select_returns db (fun _ => true) (desc r_created_at) Hdb)
      as (la & Ma & _).
    exists la. rewrite get_all_tasks_select. exact Ma.
Qed.

(** ** Calendar days *)

Section Calendar.

Ltac by_fields :=
  unfold date_compare, lex;
  repeat match goal with
         | |- context [?a ?= ?b] => destruct (Z.compare_spec a b)
         end;
  split; intros; try congruence; try lia.

Lemma date_compare_Lt a b :
  date_compare a b = Lt <->
  year a < year b \/
  (year a = year b /\
   (month a < month b \/ (month a = month b /\ day a < day b))).
Proof. by_fields. Qed.

Lemma date_compare_Gt a b :
  date_compare a b = Gt <->
  year b < year a \/
  (year a = year b /\
   (month b < month a \/ (month a = month b /\ day b < day a))).
Proof. by_fields. Qed.

Lemma date_compare_Eq a b : date_compare a b = Eq <-> a = b.
Proof.
  destruct a as [ya ma da], b as [yb mb db]. cbn.
  unfold date_compare, lex; cbn.
  destruct (Z.compare_spec ya yb); destruct (Z.compare_spec ma mb);
    destruct (Z.compare_spec da db);
    split; intros E; try discriminate; try reflexivity;
    try (injection E; intros; lia); subst; reflexivity.
Qed.

Lemma date_eqb_eq a b : date_eqb a b = true <-> a = b.
Proof.
  destruct a as [ya ma da], b as [yb mb db]. unfold date_eqb. cbn.
  rewrite !andb_true_iff, !Z.eqb_eq. split.
  - intros ((-> & ->) & ->). reflexivity.
  - intros E. injection E. auto.
Qed.

(** From midnight of [today] on: not on an earlier day. *)
Lemma from_midnight today d :
  valid_datetime d = true ->
  (datetime_leb (midnight today) d = true
   <-> date_compare (date_of d) today <> Lt).
Proof.
  intros V. apply valid_datetime_bounds in V as (_ & Hh & Hm & Hs & Hu).
  unfold datetime_leb, datetime_compare, midnight.
  cbn [date_of hour minute second microsecond].
  rewrite date_compare_Lt.
  destruct (date_compare today (date_of d)) eqn:C; cbn [lex].
  - apply date_compare_Eq in C. subst today.
    unfold lex.
    repeat match goal with
           | |- context [?a ?= ?b] => destruct (Z.compare_spec a b)
           end; split; intros; try congruence; try lia.
  - apply date_compare_Lt in C. split; [lia | reflexivity].
  - apply date_compare_Gt in C. split; [discriminate | lia].
Qed.

(** Before midnight of [tomorrow]: on an earlier day. *)
Lemma before_midnight tomorrow d :
  valid_datetime d = true ->
  (datetime_ltb d (midnight tomorrow) = true
   <-> date_compare (date_of d) tomorrow = Lt).
Proof.
  intros V. apply valid_datetime_bounds in V as (_ & Hh & Hm & Hs & Hu).
  unfold datetime_ltb, datetime_compare, midnight.
  cbn [date_of hour minute second microsecond].
  destruct (date_compare (date_of d) tomorrow) eqn:C; cbn [lex].
  - unfold lex.
    repeat match goal with
           | |- context [?a ?= ?b] => destruct (Z.compare_spec a b)
           end; split; intros; try congruence; try lia.
  - tauto.
  - split; discriminate.
Qed.

Lemma add_one_day_valid today tomorrow :
  valid_date today = true -> add_one_day today = Ok tomorrow ->
  valid_date tomorrow = true.
Proof.
  intros V. apply valid_date_bounds in V. unfold add_one_day.
  pose proof (days_in_month_bound (year today) (month today + 1)).
  pose proof (days_in_month_bound (year today + 1) 1).
  destruct (Z.ltb_spec (day today) (days_in_month (year today) (month today)));
    [| destruct (Z.ltb_spec (month today) 12);
       [| destruct (Z.ltb_spec (year today) 9999); [| discriminate]]];
    intros E; injection E as <-; unfold valid_date; cbn;
    rewrite !andb_true_iff, !Z.leb_le; lia.
Qed.

(** [add_one_day] gives the next calendar day: the valid dates from
    [today] on and before [tomorrow] are [today] alone. *)
Lemma add_one_day_next today tomorrow d :
  valid_date today = true -> valid_date d = true ->
  add_one_day today = Ok tomorrow ->
  (date_compare d today <> Lt /\ date_compare d tomorrow = Lt <-> d = today).
Proof.
  intros V Vd. apply valid_date_bounds in V. apply valid_date_bounds in Vd.
  rewrite !date_compare_Lt. unfold add_one_day.
  destruct (Z.ltb_spec (day today) (days_in_month (year today) (month today)));
    [| destruct (Z.ltb_spec (month today) 12);
       [| destruct (Z.ltb_spec (year today) 9999); [| discriminate]]];
    intros E; injection E as <-; cbn; (split; [| intros ->; lia]);
    intros (Ha & Hb);
    assert (Hy : year d = year today) by lia;
    assert (Hm : month d = month today) by lia;
    rewrite Hy, Hm in Vd;
    (assert (Hd : day d = day today) by lia);
    destruct d, today; cbn in *; congruence.
Qed.

End Calendar.

(** ** The date conditions of the store, on the tasks read *)

Section DateConditions.

Lemma some_exists {A : Type} (d : A) (P : A -> Prop) :
  (exists d0, Some d = Some d0 /\ P d0) <-> P d.
Proof.
  split; [intros (d0 & E & H); injection E as <-; exact H | eauto].
Qed.

(** The WHERE clause of [get_tasks_due_today] holds of a row exactly
    when its task is not completed and due within the day. *)
Lemma due_today_where_reads r t today tomorrow :
  reads r t -> valid_date today = true -> valid_date tomorrow = true ->
  (due_today_where (date_isoformat today) (date_isoformat tomorrow) r = true
   <-> completed t = false /\ due_within today tomorrow t).
Proof.
  intros R Vt Vtm. destruct (reads_valid r t R) as (Vd & _).
  destruct R as (_ & _ & _ & Ec & _ & Ed & _).
  unfold due_today_where, due_within, FALSE. rewrite <- Ed, Ec.
  destruct (due_date t) as [d |];
    cbn [text_of_datetime text_ge text_lt valid_optional] in *.
  - rewrite some_exists.
    rewrite from_midnight, before_midnight by assumption.
    unfold String.ltb. rewrite !compare_isoformat_date by assumption.
    destruct (r_completed r =? 0);
      destruct (date_compare (date_of d) today);
      destruct (date_compare (date_of d) tomorrow);
      cbn; intuition congruence.
  - destruct (r_completed r =? 0); cbn;
      (split; [discriminate | intros (_ & d & E & _); discriminate]).
Qed.

Lemma is_due_today_iff now t :
  is_due_today now t = true
  <-> exists d, due_date t = Some d /\ date_of d = date_of now.
Proof.
  unfold is_due_today. destruct (due_date t) as [d |].
  - rewrite some_exists. apply date_eqb_eq.
  - split; [discriminate | intros (d & E & _); discriminate].
Qed.

(** Within the day of [now] is the same as on the calendar date of
    [now]. *)
Lemma due_within_is_due_today now tomorrow t :
  valid_datetime now = true -> valid_optional (due_date t) = true ->
  add_one_day (date_of now) = Ok tomorrow ->
  (due_within (date_of now) tomorrow t <-> is_due_today now t = true).
Proof.
  intros Vn Vd A. rewrite is_due_today_iff. unfold due_within.
  destruct (valid_datetime_bounds now Vn) as (Vnd & _).
  destruct (due_date t) as [d |]; cbn [valid_optional] in Vd.
  - rewrite !some_exists.
    rewrite from_midnight, before_midnight by assumption.
    apply add_one_day_next; try assumption.
    now apply valid_datetime_bounds in Vd.
  - split; intros (d & E & _); discriminate.
Qed.

End DateConditions.

(** C5. At a clock reading [now] whose next day exists: the record
    predicate [is_due_today] holds exactly when a due date is set whose
    calendar date is that of [now], whatever the completed flag; and in
    every database reached from a fresh file by calls on stamped tasks,
    [get_tasks_due_today] returns without raising, from the earliest due
    date to the latest, exactly those of all tasks that are not completed
    and are due from the start of today up to, not including, the start of
    tomorrow, which are the not completed tasks with [is_due_today]. So no
    completed task is returned, though [is_due_today] may hold of it. *)
Theorem due_today_record_and_store
  (ops : list op) (now : datetime) (tomorrow : date) :
  forallb stamped_op ops = true ->
  valid_datetime now = true ->
  add_one_day (date_of now) = Ok tomorrow ->
  (forall t, is_due_today now t = true
             <-> exists d, due_date t = Some d /\ date_of d = date_of now) /\
  (forall t b, is_due_today now (set_completed b t) = is_due_today now t) /\
  exists la l,
    get_all_tasks (run ops) = Ok la /\
    get_tasks_due_today now now (run ops) = Ok l /\
    soonest_due_first l /\
    (forall t, In t l <->
               In t la /\ completed t = false /\
               due_within (date_of now) tomorrow t) /\
    (forall t, In t l <->
               In t la /\ completed t = false /\ is_due_today now t = true) /\
    (forall t, completed t = true -> ~ In t l).
Proof.
  intros Hops Vn A. pose proof (run_ok ops Hops) as Hdb.
  set (db := run ops) in *.
  destruct (valid_datetime_bounds now Vn) as (Vnd & _).
  pose proof (add_one_day_valid _ _ Vnd A) as Vtm.
  split; [intros t; apply is_due_today_iff |].
  split; [reflexivity |].
  set (p := due_today_where (date_isoformat (date_of now))
              (date_isoformat tomorrow)).
  destruct (select_returns db (fun _ => true) (desc r_created_at) Hdb)
    as (la & Ma & Ra).
  destruct (select_returns db p (asc r_due_date) Hdb) as (l & M & R).
  assert (Interval : forall t, In t l <->
            In t la /\ completed t = false /\
            due_within (date_of now) tomorrow t).
  { intros t. rewrite (select_In db p _ l t M).
    rewrite (select_In db (fun _ => true) _ la t Ma).
    split.
    - intros (r & Hr & Pr & Fr).
      assert (Rrt : reads r t).
      { apply _task_from_row_reads; [| assumption].
        destruct Hdb as (Hrows & _). rewrite Forall_forall in Hrows. auto. }
      split; [eauto |].
      apply (due_today_where_reads r t _ _ Rrt Vnd Vtm). exact Pr.
    - intros ((r & Hr & _ & Fr) & Hc & Hw).
      exists r. split; [assumption |]. split; [| assumption].
      assert (Rrt : reads r t).
      { apply _task_from_row_reads; [| assumption].
        destruct Hdb as (Hrows & _). rewrite Forall_forall in Hrows. auto. }
      apply (due_today_where_reads r t _ _ Rrt Vnd Vtm). auto. }
  rewrite filter_true in Ma, Ra.
  exists la, l. split; [exact Ma |].
  split; [unfold get_tasks_due_today; rewrite A; exact M |].
  split; [| split; [exact Interval | split]].
  - eapply soonest_due_first_of_rows; [exact R |].
    apply order_by_Sorted, asc_total.
  - intros t. rewrite Interval. split.
    + intros (Ha & Hc & Hw). split; [assumption |]. split; [assumption |].
      destruct (Forall2_In_r _ _ _ t Ra Ha) as (r & _ & Rrt).
      destruct (reads_valid r t Rrt) as (Vd & _).
      now apply (due_within_is_due_today now tomorrow t Vn Vd A).
    + intros (Ha & Hc & Hw). split; [assumption |]. split; [assumption |].
      destruct (Forall2_In_r _ _ _ t Ra Ha) as (r & _ & Rrt).
      destruct (reads_valid r t Rrt) as (Vd & _).
      now apply (due_within_is_due_today now tomorrow t Vn Vd A).
  - intros t Hc Hin. apply Interval in Hin. destruct Hin as (_ & Hf & _).
    congruence.
Qed.

(** ** Overdue: the listing and the statistics *)

Section Overdue.

Lemma length_filter_Permutation {A : Type} (p : A -> bool) l l' :
  Permutation l l' -> List.length (filter p l) = List.length (filter p l').
Proof.
  induction 1 as [| x l l' _ IH | x y l | l1 l2 l3 _ IH1 _ IH2]; simpl.
  - reflexivity.
  - destruct (p x); simpl; congruence.
  - destruct (p x), (p y); reflexivity.
  - congruence.
Qed.

Lemma length_filter_Forall2 {A B : Type} (P : A -> B -> Prop)
  (p : A -> bool) (q : B -> bool) l l' :
  (forall a b, P a b -> p a = q b) ->
  Forall2 P l l' -> List.length (filter p l) = List.length (filter q l').
Proof.
  intros H. induction 1 as [| a b l l' Pab _ IH]; simpl; [reflexivity |].
  rewrite (H a b Pab). destruct (q b); simpl; congruence.
Qed.


(** The WHERE clause of the overdue count of [get_task_stats], on the task
    read: only the calendar dates are compared. *)
Lemma overdue_where_datetime_now r t utc_now :
  reads r t -> valid_datetime utc_now = true ->
  overdue_where (datetime_now utc_now) r = overdue_by_date utc_now t.
Proof.
  intros R Vn. destruct (reads_valid r t R) as (Vd & _).
  destruct R as (_ & _ & _ & Ec & _ & Ed & _).
  unfold overdue_where, overdue_by_date, FALSE. rewrite <- Ed, Ec.
  destruct (due_date t) as [d |];
    cbn [text_of_datetime text_lt is_not_null valid_optional] in *.
  - unfold String.ltb. rewrite compare_isoformat_datetime_now by assumption.
    destruct (r_completed r =? 0);
      destruct (date_compare (date_of d) (date_of utc_now)); reflexivity.
  - destruct (r_completed r =? 0); reflexivity.
Qed.


(** The overdue count of [get_task_stats] is the number of tasks that are
    not completed and due on a calendar date before the UTC date. *)
Lemma get_task_stats_overdue_spec ops utc_now :
  forallb stamped_op ops = true -> valid_datetime utc_now = true ->
  exists la,
    get_all_tasks (run ops) = Ok la /\
    total (get_task_stats utc_now (run ops)) = Z.of_nat (List.length la) /\
    overdue (get_task_stats utc_now (run ops))
    = Z.of_nat (List.length (filter (overdue_by_date utc_now) la)).
Proof.
  intros Hops Vn. pose proof (run_ok ops Hops) as Hdb.
  set (db := run ops) in *.
  destruct (select_returns db (fun _ => true) (desc r_created_at) Hdb)
    as (la & Ma & Ra).
  rewrite filter_true in Ma, Ra.
  exists la. split; [exact Ma |].
  unfold get_task_stats, count. cbn [total overdue]. split; f_equal.
  - rewrite filter_true. rewrite <- (Forall2_length_eq _ _ _ Ra).
    symmetry. apply Permutation_length, order_by_Permutation.
  - rewrite <- (length_filter_Forall2 reads
                  (overdue_where (datetime_now utc_now))
                  (overdue_by_date utc_now) _ _
                  (fun r t H => overdue_where_datetime_now r t utc_now H Vn) Ra).
    apply length_filter_Permutation. symmetry. apply order_by_Permutation.
Qed.

End Overdue.

(** ** Search: queries without wildcards *)

Section Search.

Lemma like_star p s :
  like (String "%" p) s
  = like p s ||
    match s with
    | EmptyString => false
    | String _ s' => like (String "%" p) s'
    end.
Proof. destruct s; reflexivity. Qed.

Lemma wildcard_free_cons c q :
  wildcard_free (String c q) = true ->
  Ascii.eqb c "%" = false /\ Ascii.eqb c "_" = false /\
  wildcard_free q = true.
Proof.
  unfold wildcard_free. cbn [occurs].
  rewrite (Ascii.eqb_sym "%" c), (Ascii.eqb_sym "_" c).
  destruct (Ascii.eqb c "%"), (Ascii.eqb c "_"); cbn [orb negb andb];
    rewrite ?andb_false_r; try discriminate.
  intros H. repeat split. exact H.
Qed.

Lemma like_prefix q : forall u,
  wildcard_free q = true -> like (q ++ "%") u = prefix_nocase q u.
Proof.
  induction q as [| c q IH]; intros u W.
  - apply like_any.
  - apply wildcard_free_cons in W as (Hp & Hu & W).
    cbn [String.append like prefix_nocase]. rewrite Hp, Hu.
    destruct u as [| d u]; [reflexivity |]. now rewrite IH.
Qed.

(** Without wildcards in the query, the pattern of [search_tasks] matches
    exactly the texts that contain the query up to ASCII case. *)
Lemma like_contains q s :
  wildcard_free q = true ->
  like ("%" ++ q ++ "%") s = contains_nocase q s.
Proof.
  intros W. change ("%" ++ q ++ "%")%string with (String "%" (q ++ "%")).
  induction s as [| a s IH]; rewrite like_star, like_prefix by assumption.
  - reflexivity.
  - rewrite IH. reflexivity.
Qed.

Lemma search_where_wildcard_free q r :
  wildcard_free q = true ->
  search_where ("%" ++ q ++ "%") r = substring_match q r.
Proof.
  intros W. unfold search_where, substring_match, sql_like.
  rewrite like_contains by assumption.
  destruct (r_tags r) as [s |].
  - rewrite like_contains by assumption.
    destruct (contains_nocase q (r_description r)), (contains_nocase q s);
      reflexivity.
  - destruct (contains_nocase q (r_description r)); reflexivity.
Qed.

Lemma split_on_cons sep s : exists p ps, split_on sep s = p :: ps.
Proof.
  destruct s as [| c s]; cbn [split_on]; [eauto |].
  destruct (Ascii.eqb c sep); [eauto |].
  destruct (split_on sep s); eauto.
Qed.

(** Joining the pieces of a split gives the text back. *)
Lemma join_split s : join "," (split_on "," s) = s.
Proof.
  induction s as [| c s IH]; [reflexivity |].
  cbn [split_on]. destruct (split_on_cons "," s) as (p & ps & E).
  rewrite E in *.
  destruct (Ascii.eqb_spec c ",") as [-> | _].
  - change (join "," ("" :: p :: ps)) with ("," ++ join "," (p :: ps))%string.
    rewrite IH. reflexivity.
  - destruct ps as [| p' ps].
    + cbn [join] in *. congruence.
    + change (join "," (String c p :: p' :: ps))
        with (String c (p ++ "," ++ join "," (p' :: ps))).
      change (join "," (p :: p' :: ps))
        with (p ++ "," ++ join "," (p' :: ps))%string in IH.
      congruence.
Qed.

Lemma contains_in_empty q s :
  contains_nocase q "" = true -> contains_nocase q s = true.
Proof.
  destruct q as [| c q]; [| discriminate].
  intros _. destruct s; reflexivity.
Qed.

(** The condition of the specification on a row is the same condition on
    the task read from it. *)
Lemma substring_match_reads q r t :
  reads r t ->
  substring_match q r
  = contains_nocase q (description t) ||
    contains_nocase q (join "," (tags t)).
Proof.
  intros (_ & Ed & _ & _ & Et & _). unfold substring_match.
  rewrite Ed, Et. unfold tags_of_text.
  destruct (r_tags r) as [s |].
  - destruct s as [| c s].
    + reflexivity.
    + cbn [truthy]. rewrite join_split. reflexivity.
  - cbn [join].
    destruct (contains_nocase q (r_description r)) eqn:D; [reflexivity |].
    destruct (contains_nocase q "") eqn:E; [| reflexivity].
    rewrite (contains_in_empty q _ E) in D. discriminate.
Qed.

(** For a query without ['%'] and ['_'], [search_tasks] returns, newest
    first, exactly the tasks whose description or comma-joined tags contain
    the query up to ASCII case. *)
Lemma search_tasks_wildcard_free ops q :
  forallb stamped_op ops = true -> wildcard_free q = true ->
  exists la l,
    get_all_tasks (run ops) = Ok la /\
    search_tasks (run ops) q = Ok l /\
    newest_first l /\
    (forall t, In t l <->
               In t la /\
               contains_nocase q (description t) ||
               contains_nocase q (join "," (tags t)) = true).
Proof.
  intros Hops W. pose proof (run_ok ops Hops) as Hdb.
  set (db := run ops) in *.
  assert (Hrows : forall r, In r (rows db) -> row_ok r).
  { destruct Hdb as (H & _). now rewrite Forall_forall in H. }
  destruct (select_returns db (fun _ => true) (desc r_created_at) Hdb)
    as (la & Ma & Ra).
  destruct (select_returns db (search_where ("%" ++ q ++ "%"))
              (desc r_created_at) Hdb) as (l & M & R).
  exists la, l.
  split; [rewrite get_all_tasks_select; exact Ma |].
  split; [exact M |].
  split.
  - eapply newest_first_of_rows; [exact R |].
    apply order_by_Sorted, desc_total.
  - intros t. rewrite (select_In db _ _ l t M), (select_In db _ _ la t Ma).
    split.
    + intros (r & Hr & Pr & Fr). split; [eauto |].
      rewrite <- (substring_match_reads q r t)
        by (apply _task_from_row_reads; auto).
      rewrite <- search_where_wildcard_free by assumption. exact Pr.
    + intros ((r & Hr & _ & Fr) & Hm). exists r.
      split; [assumption |]. split; [| assumption].
      rewrite search_where_wildcard_free by assumption.
      rewrite (substring_match_reads q r t)
        by (apply _task_from_row_reads; auto).
      exact Hm.
Qed.

End Search.

(** ** The scenarios of the specification, evaluated *)

Section Scenarios.

Example search_milk : ids_of (search_tasks shop "milk") = Ok [Some 1].
Proof. vm_compute. reflexivity. Qed.

Example search_shopping :
  ids_of (search_tasks shop "shopping") = Ok [Some 2; Some 1].
Proof. vm_compute. reflexivity. Qed.

Example search_folds_case :
  ids_of (search_tasks shop "SHOP") = Ok [Some 2; Some 1].
Proof. vm_compute. reflexivity. Qed.

Example search_across_tag_boundary :
  ids_of (search_tasks (run [Create (set_tags ["ab"; "cd"] milk)]) "b,c")
  = Ok [Some 1].
Proof. vm_compute. reflexivity. Qed.

Example overdue_then_completed :
  ids_of (get_overdue_tasks noon (run history)) = Ok [Some 3] /\
  ids_of (get_overdue_tasks noon (run (history ++ [Update rent_done])))
  = Ok [].
Proof. split; vm_compute; reflexivity. Qed.

Example add_tag_is_case_sensitive :
  tags (add_tag noon "Shopping" milk) = ["shopping"; "Shopping"].
Proof. reflexivity. Qed.

Example update_without_id :
  update_task shop (new_task noon noon "nowhere")
  = (shop, new_task noon noon "nowhere").
Proof. vm_compute. reflexivity. Qed.

Example delete_twice :
  snd (delete_task shop 2) = true /\
  snd (delete_task (fst (delete_task shop 2)) 2) = false /\
  snd (delete_task shop 99) = false.
Proof. repeat split. Qed.

Example unstamped_task_is_not_read :
  get_task
    (fst (create_task empty_db
            (mkTask "x" MEDIUM None false [] None (Some noon) None None))) 1
  = Raise TypeError.
Proof. vm_compute. reflexivity. Qed.

Example empty_tag_is_not_read_back :
  ids_of (get_all_tasks (run [Create (set_tags [""] milk)])) = Ok [Some 1] /\
  get_task (run [Create (set_tags [""] milk)]) 1
  = Ok (Some (set_tags [] (set_id (Some 1) milk))).
Proof. split; vm_compute; reflexivity. Qed.

Example completed_task_due_today_is_not_listed :
  ids_of (get_all_tasks (run (history ++ [Update rent_done])))
  = Ok [Some 2; Some 1; Some 3] /\
  is_due_today noon rent_done = true /\
  completed rent_done = true /\
  get_tasks_due_today noon noon (run (history ++ [Update rent_done])) = Ok [] /\
  ids_of (get_tasks_due_today noon noon (run history)) = Ok [Some 3].
Proof. repeat split; vm_compute; reflexivity. Qed.

Example fresh_id_after_delete :
  id (snd (create_task (fst (delete_task shop 3)) code)) = Some 4.
Proof. reflexivity. Qed.

End Scenarios.

(** C1, at a failing input. The store holds one pending task, due at nine
    in the morning; the clock reads noon of the same day, local time and
    UTC alike. [get_overdue_tasks] returns the task, which is overdue in the
    words of the specification, while the overdue count of
    [get_task_stats] is 0: the text of the due date has ['T'] where the text
    of [datetime('now')] has a blank, so on the same date it compares as
    later. *)
Theorem stats_overdue_misses_task_due_earlier_today :
  exists t,
    get_all_tasks rented = Ok [t] /\
    overdue_at noon t = true /\
    get_overdue_tasks noon rented = Ok [t] /\
    overdue (get_task_stats noon rented) = 0.
Proof. eexists. repeat split; vm_compute; reflexivity. Qed.

(** C4, at a failing input. In the store of the search scenario the query
    ["m_lk"] returns the task "Buy milk", whose description and whose
    joined tags do not contain the query: the underscore of the query is
    read as the one-character wildcard of LIKE. *)
Theorem search_reads_query_wildcards :
  exists t,
    search_tasks shop "m_lk" = Ok [t] /\
    description t = "Buy milk" /\
    tags t = ["shopping"] /\
    contains_nocase "m_lk" (description t) = false /\
    contains_nocase "m_lk" (join "," (tags t)) = false /\
    Forall (fun r => substring_match "m_lk" r = false) (rows shop).
Proof.
  eexists. split; [vm_compute; reflexivity |].
  repeat split; repeat constructor.
Qed.

(** C2, counterexample. A task with the single tag ["a,b"], created in a
    fresh database, gets id 1 and is fetched back with the two tags ["a"]
    and ["b"]: the fetched task is not the created one. *)
Lemma comma_tag_breaks_round_trip :
  stamped comma_task = true /\
  snd (create_task empty_db comma_task) = set_id (Some 1) comma_task /\
  get_task (fst (create_task empty_db comma_task)) 1
  = Ok (Some (set_tags ["a"; "b"] (set_id (Some 1) comma_task))) /\
  get_task (fst (create_task empty_db comma_task)) 1
  <> Ok (Some (set_id (Some 1) comma_task)).
Proof.
  split; [reflexivity |]. split; [reflexivity |].
  split; [vm_compute; reflexivity |].
  intros E. vm_compute in E. discriminate E.
Qed.

(** ** The theorems at sample inputs *)

Lemma create_then_get_round_trip_witness :
  stamped milk = true /\ plain_tags (tags milk) = true /\
  exists i,
    (forall r, In r (rows shop) -> r_id r <> i) /\
    snd (create_task shop milk) = set_id (Some i) milk /\
    get_task (fst (create_task shop milk)) i = Ok (Some (set_id (Some i) milk)).
Proof.
  split; [reflexivity |]. split; [reflexivity |].
  apply (create_then_get_round_trip shop milk); reflexivity.
Defined.

Lemma pending_completed_partition_all_witness :
  forallb stamped_op history = true /\
  exists la lp lc,
    get_all_tasks (run history) = Ok la /\
    get_pending_tasks (run history) = Ok lp /\
    get_completed_tasks (run history) = Ok lc /\
    Permutation (lp ++ lc) la /\
    NoDup la /\
    (forall t, In t lp -> In t lc -> False).
Proof.
  split; [reflexivity |].
  destruct (pending_completed_partition_all history) as (Part & Returns).
  destruct (Returns eq_refl) as (la & Ma).
  destruct (Part la Ma) as (lp & lc & Mp & Mc & P & ND & _ & _ & D).
  exists la, lp, lc. repeat (split; [assumption |]). exact D.
Defined.

Lemma due_today_record_and_store_witness :
  forallb stamped_op (history ++ [Update rent_done]) = true /\
  valid_datetime noon = true /\
  add_one_day (date_of noon) = Ok (mkdate 2024 1 16) /\
  (forall t, is_due_today noon t = true
             <-> exists d, due_date t = Some d /\ date_of d = date_of noon) /\
  (forall t b, is_due_today noon (set_completed b t) = is_due_today noon t) /\
  exists la l,
    get_all_tasks (run (history ++ [Update rent_done])) = Ok la /\
    get_tasks_due_today noon noon (run (history ++ [Update rent_done])) = Ok l /\
    soonest_due_first l /\
    (forall t, In t l <->
               In t la /\ completed t = false /\
               due_within (date_of noon) (mkdate 2024 1 16) t) /\
    (forall t, In t l <->
               In t la /\ completed t = false /\ is_due_today noon t = true) /\
    (forall t, completed t = true -> ~ In t l).
Proof.
  split; [reflexivity |]. split; [reflexivity |]. split; [reflexivity |].
  apply (due_today_record_and_store (history ++ [Update rent_done]) noon
           (mkdate 2024 1 16)); reflexivity.
Defined.


Lemma update_task_frame_witness :
  id bread_done = Some 2 /\
  snd (update_task shop bread_done) = bread_done /\
  seq (fst (update_task shop bread_done)) = seq shop /\
  List.length (rows (fst (update_task shop bread_done)))
  = List.length (rows shop) /\
  forall n r, nth_error (rows shop) n = Some r ->
    exists r', nth_error (rows (fst (update_task shop bread_done))) n = Some r' /\
      r_id r' = r_id r /\
      r_created_at r' = r_created_at r /\
      (r_id r <> 2 -> r' = r) /\
      (r_id r = 2 ->
         r_description r' = description bread_done /\
         r_priority r' = Priority_value (priority bread_done) /\
         r_due_date r' = text_of_datetime (due_date bread_done) /\
         r_completed r' = adapt_bool (completed bread_done) /\
         r_tags r' = text_of_tags (tags bread_done) /\
         r_updated_at r' = text_of_datetime (updated_at bread_done) /\
         r_completed_at r' = text_of_datetime (completed_at bread_done)).
Proof.
  split; [reflexivity |].
  apply (update_task_frame shop bread_done 2). reflexivity.
Defined.

Lemma search_empty_query_lists_all_witness :
  forallb stamped_op history = true /\
  (forall db, search_tasks db "" = get_all_tasks db) /\
  exists l,
    search_tasks (run history) "" = Ok l /\
    get_all_tasks (run history) = Ok l /\
    List.length l = List.length (rows (run history)) /\
    (forall r, In r (rows (run history)) -> exists t, In t l /\ reads r t) /\
    newest_first l.
Proof.
  split; [reflexivity |].
  apply (search_empty_query_lists_all history). reflexivity.
Defined.

Lemma add_tag_appends_once_witness :
  In "shopping" (tags milk) /\
  add_tag noon "shopping" milk = milk /\
  ~ In "urgent" (tags milk) /\
  add_tag noon "urgent" milk
  = set_updated_at (Some noon) (set_tags ["shopping"; "urgent"] milk) /\
  tags (add_tag (at_time 13 0 0) "urgent" (add_tag noon "urgent" milk))
  = ["shopping"; "urgent"].
Proof.
  assert (Old : In "shopping" (tags milk)) by (left; reflexivity).
  assert (New : ~ In "urgent" (tags milk))
    by (intros [E | []]; discriminate E).
  destruct (add_tag_appends_once noon "shopping" milk) as (Kept & _).
  destruct (add_tag_appends_once noon "urgent" milk)
    as (_ & Added & _ & Twice).
  split; [exact Old |]. split; [exact (Kept Old) |].
  split; [exact New |]. split; [exact (Added New) |].
  rewrite (Twice (at_time 13 0 0)), (Added New). reflexivity.
Defined.


(* ===================================================================== *)
(** * Further properties of the store *)
(* ===================================================================== *)

Section MoreWrites.

Lemma length_filter_negb {A : Type} (p : A -> bool) l :
  (List.length (filter p l) + List.length (filter (fun x => negb (p x)) l)
   = List.length l)%nat.
Proof.
  induction l as [| x l IH]; simpl; [reflexivity |].
  destruct (p x); simpl; lia.
Qed.

Lemma filter_filter_none {A : Type} (p q : A -> bool) l :
  (forall x, q x = true -> p x = false) ->
  filter p (filter q l) = [].
Proof.
  intros H. induction l as [| x l IH]; simpl; [reflexivity |].
  destruct (q x) eqn:Q; simpl; [rewrite (H x Q) |]; exact IH.
Qed.

Lemma filter_filter_same {A : Type} (p q : A -> bool) l :
  (forall x, p x = true -> q x = true) ->
  filter p (filter q l) = filter p l.
Proof.
  intros H. induction l as [| x l IH]; simpl; [reflexivity |].
  destruct (q x) eqn:Q; simpl.
  - destruct (p x); congruence.
  - destruct (p x) eqn:P; [| exact IH].
    rewrite (H x P) in Q. discriminate.
Qed.


Lemma find_app_other i x l :
  r_id x <> i ->
  find (fun r => r_id r =? i) (l ++ [x]) = find (fun r => r_id r =? i) l.
Proof.
  intros H. induction l as [| r l IH]; simpl.
  - destruct (Z.eqb_spec (r_id x) i); [contradiction | reflexivity].
  - destruct (r_id r =? i); [reflexivity | exact IH].
Qed.

Lemma find_map_other i (g : Row -> Row) l :
  (forall r, r_id (g r) = r_id r) ->
  (forall r, r_id r = i -> g r = r) ->
  find (fun r => r_id r =? i) (map g l) = find (fun r => r_id r =? i) l.
Proof.
  intros Hid Hfix. induction l as [| r l IH]; simpl; [reflexivity |].
  rewrite Hid. destruct (Z.eqb_spec (r_id r) i) as [E | E].
  - now rewrite Hfix.
  - exact IH.
Qed.

Lemma find_map_key i (g : Row -> Row) l :
  (forall r, r_id (g r) = r_id r) ->
  find (fun r => r_id r =? i) (map g l)
  = option_map g (find (fun r => r_id r =? i) l).
Proof.
  intros Hid. induction l as [| r l IH]; simpl; [reflexivity |].
  rewrite Hid. destruct (r_id r =? i); [reflexivity | exact IH].
Qed.

Lemma find_filter_other i j l :
  i <> j ->
  find (fun r => r_id r =? j) (filter (fun r => negb (r_id r =? i)) l)
  = find (fun r => r_id r =? j) l.
Proof.
  intros H. induction l as [| r l IH]; simpl; [reflexivity |].
  destruct (Z.eqb_spec (r_id r) i) as [E | E]; simpl.
  - destruct (Z.eqb_spec (r_id r) j); [lia | exact IH].
  - destruct (r_id r =? j); [reflexivity | exact IH].
Qed.

End MoreWrites.

(** X1. [clear_completed] returns the number of rows whose completed
    column is true, which is the completed count of [get_task_stats] just
    before; it leaves exactly the other rows, in their order, and the
    sequence value. Afterwards the completed listing is empty, the pending
    listing is what it was, and a second call returns 0 and changes
    nothing. *)
Theorem clear_completed_drops_completed (db : Db) :
  (forall utc_now,
     snd (clear_completed db) = completed_count (get_task_stats utc_now db)) /\
  rows (fst (clear_completed db))
  = filter (fun r => negb (r_completed r =? TRUE)) (rows db) /\
  seq (fst (clear_completed db)) = seq db /\
  get_completed_tasks (fst (clear_completed db)) = Ok [] /\
  get_pending_tasks (fst (clear_completed db)) = get_pending_tasks db /\
  clear_completed (fst (clear_completed db)) = (fst (clear_completed db), 0).
Proof.
  unfold clear_completed. cbn [fst snd rows seq].
  set (done := fun r => r_completed r =? TRUE).
  split; [| split; [reflexivity | split; [reflexivity | split; [| split]]]].
  - intros u. unfold get_task_stats, count, rowcount. cbn [completed_count].
    pose proof (length_filter_negb done (rows db)) as L.
    unfold done in *. cbn beta in L. lia.
  - unfold get_completed_tasks. cbn [rows]. fold done.
    rewrite filter_filter_none; [reflexivity |].
    intros r H. apply negb_true_iff in H. exact H.
  - unfold get_pending_tasks. cbn [rows].
    rewrite filter_filter_same; [reflexivity |].
    intros r H. unfold done, FALSE, TRUE in *. apply Z.eqb_eq in H.
    rewrite H. reflexivity.
  - f_equal.
    + f_equal. apply filter_all. intros r Hr. apply filter_In in Hr. tauto.
    + unfold rowcount. rewrite (filter_all _ (filter _ (rows db))).
      * apply Z.sub_diag.
      * intros r Hr. apply filter_In in Hr. tauto.
Qed.


(** X3. A write to one id leaves what [get_task] returns at every other
    id as it was, result or exception alike: creating a task, updating a
    task that carries another id or none, deleting another id. *)
Theorem writes_leave_other_ids (db : Db) (t : Task) (i j : Z) :
  (j <> next_rowid db ->
   get_task (fst (create_task db t)) j = get_task db j) /\
  (id t <> Some j ->
   get_task (fst (update_task db t)) j = get_task db j) /\
  (i <> j ->
   get_task (fst (delete_task db i)) j = get_task db j).
Proof.
  split; [| split].
  - intros H. unfold get_task, create_task, _task_to_row. cbn [fst rows].
    rewrite find_app_other; [reflexivity | cbn; lia].
  - intros H. unfold get_task, update_task. cbn [fst rows].
    rewrite find_map_other; [reflexivity | |].
    + intros r. destruct (is_true _); reflexivity.
    + intros r E. destruct (id t) as [k |]; cbn; [| reflexivity].
      destruct (Z.eqb_spec (r_id r) k); [congruence | reflexivity].
  - intros H. unfold get_task, delete_task. cbn [fst rows].
    now rewrite find_filter_other.
Qed.

Section UpdateGet.

Lemma stamped_set_created_at t c :
  stamped t = true -> valid_required c = true ->
  stamped (set_created_at c t) = true.
Proof.
  intros H Hc. destruct (stamped_fields t H) as (H1 & _ & H3 & H4).
  unfold stamped. cbn. rewrite H1, Hc, H3, H4. reflexivity.
Qed.

Lemma get_task_found db i t0 :
  get_task db i = Ok (Some t0) ->
  exists r, find (fun r => r_id r =? i) (rows db) = Some r /\
            r_id r = i /\ In r (rows db) /\ _task_from_row r = Ok t0.
Proof.
  unfold get_task. destruct (find _ (rows db)) as [r |] eqn:F; [| discriminate].
  destruct (_task_from_row r) as [t |] eqn:R; cbn [bind]; [| discriminate].
  intros E. injection E as <-. exists r.
  apply find_some in F as (Hin & Hid). apply Z.eqb_eq in Hid. auto.
Qed.




Lemma get_after_update db t t0 i :
  db_ok db -> stamped t = true -> plain_tags (tags t) = true ->
  id t = Some i ->
  get_task db i = Ok (Some t0) ->
  get_task (fst (update_task db t)) i
  = Ok (Some (set_created_at (created_at t0) t)).
Proof.
  intros (Hrows & _) Ht Hp Hid Hget.
  destruct (get_task_found db i t0 Hget) as (r & F & Er & Hin & R0).
  rewrite Forall_forall in Hrows.
  pose proof (_task_from_row_reads r t0 (Hrows r Hin) R0) as Rd.
  destruct Rd as (_ & _ & _ & _ & _ & _ & Ec & _ & _ & S0).
  destruct (stamped_fields t0 S0) as (_ & Vc & _).
  unfold get_task, update_task. cbn [fst rows].
  rewrite find_map_key by (intros x; destruct (is_true _); reflexivity).
  rewrite F. cbn [option_map]. rewrite Hid. cbn [is_true int_eq].
  rewrite Er, Z.eqb_refl.
  pose proof (_task_from_row_written i (set_created_at (created_at t0) t)
                (stamped_set_created_at t _ Ht Vc)) as W.
  unfold update_row. rewrite <- Ec, Er.
  cbn [description priority due_date completed tags created_at updated_at
       completed_at set_created_at] in W.
  rewrite W. cbn [bind].
  rewrite tags_of_text_of_tags by assumption.
  destruct t; cbn in *. subst. reflexivity.
Qed.

Lemma update_task_db_ok db t :
  stamped t = true -> db_ok db -> db_ok (fst (update_task db t)).
Proof. intros H. apply (apply_op_ok db (Update t) H). Qed.

End UpdateGet.

(** X4. In a database reached from a fresh file by calls on stamped
    tasks, after [update_task] with a stamped task that carries the id of a
    stored task and has plain tags, [get_task] at that id returns the task
    passed, in every field but [created_at], which is still the one of the
    stored task. *)
Theorem update_then_get (ops : list op) (t t0 : Task) (i : Z) :
  forallb stamped_op ops = true ->
  stamped t = true -> plain_tags (tags t) = true ->
  id t = Some i ->
  get_task (run ops) i = Ok (Some t0) ->
  get_task (fst (update_task (run ops) t)) i
  = Ok (Some (set_created_at (created_at t0) t)).
Proof.
  intros Hops Ht Hp Hid Hget.
  apply get_after_update; try assumption.
  now apply run_ok.
Qed.

Section Sequence.

Lemma seq_apply_op db o : seq db <= seq (apply_op db o).
Proof.
  destruct o as [t | t | i |]; cbn; try lia.
  unfold create_task, _task_to_row, next_rowid. cbn. lia.
Qed.

Lemma seq_fold_ops ops : forall db, seq db <= seq (fold_left apply_op ops db).
Proof.
  induction ops as [| o ops IH]; intros db; simpl; [lia |].
  pose proof (seq_apply_op db o). pose proof (IH (apply_op db o)). lia.
Qed.

Lemma created_id db t : id (snd (create_task db t)) = Some (next_rowid db).
Proof. reflexivity. Qed.

Lemma seq_after_create db t : seq (fst (create_task db t)) = next_rowid db.
Proof. reflexivity. Qed.

End Sequence.

(** X5. Rowids are never handed out twice: the id a create assigns is
    positive, larger than the id of every row in the table, and larger than
    the id assigned by any earlier create of the history, whatever was
    updated, deleted or cleared in between. *)
Theorem rowids_never_reused (ops1 ops2 : list op) (t1 t2 : Task) :
  exists i1 i2,
    id (snd (create_task (run ops1) t1)) = Some i1 /\
    id (snd (create_task (run (ops1 ++ Create t1 :: ops2)) t2)) = Some i2 /\
    0 < i1 /\ i1 < i2 /\
    (forall r, In r (rows (run (ops1 ++ Create t1 :: ops2))) -> r_id r < i2).
Proof.
  exists (next_rowid (run ops1)), (next_rowid (run (ops1 ++ Create t1 :: ops2))).
  split; [reflexivity |]. split; [reflexivity |].
  assert (Pos : forall db, 0 <= seq db -> 0 < next_rowid db).
  { intros db H. unfold next_rowid. lia. }
  assert (Seq0 : forall ops, 0 <= seq (run ops)).
  { intros ops. unfold run. pose proof (seq_fold_ops ops empty_db). cbn in *. lia. }
  split; [apply Pos, Seq0 |]. split.
  - unfold run at 2. rewrite fold_left_app. cbn [fold_left apply_op].
    fold (run ops1).
    pose proof (seq_fold_ops ops2 (fst (create_task (run ops1) t1))) as H.
    rewrite seq_after_create in H.
    unfold next_rowid at 2. lia.
  - intros r Hr. now apply next_rowid_fresh.
Qed.

Section MoreQueries.

Lemma length_filter_imp {A : Type} (p q : A -> bool) l :
  (forall x, p x = true -> q x = true) ->
  (List.length (filter p l) <= List.length (filter q l))%nat.
Proof.
  intros H. induction l as [| x l IH]; simpl; [lia |].
  destruct (p x) eqn:P; [rewrite (H x P); simpl; lia |].
  destruct (q x); simpl; lia.
Qed.

Lemma overdue_where_pending bound r :
  overdue_where bound r = true -> (r_completed r =? FALSE) = true.
Proof.
  unfold overdue_where.
  destruct (r_completed r =? FALSE); [reflexivity |].
  destruct (is_not_null (r_due_date r)) as [[] |],
           (text_lt (r_due_date r) (Some bound)) as [[] |]; discriminate.
Qed.




(** Rows in descending text order of [completed_at] are tasks from the
    latest completion to the earliest. *)
Lemma latest_completed_first_of_rows l ts :
  Forall2 reads l ts ->
  Sorted (fun a b => desc r_completed_at a b = true) l ->
  latest_completed_first ts.
Proof.
  apply Sorted_Forall2. intros a b a' b' Ra Rb H.
  destruct (reads_valid a a' Ra) as (_ & _ & Va).
  destruct (reads_valid b b' Rb) as (_ & _ & Vb).
  destruct Ra as (_ & _ & _ & _ & _ & _ & _ & _ & Ea & _).
  destruct Rb as (_ & _ & _ & _ & _ & _ & _ & _ & Eb & _).
  unfold desc in H. rewrite <- Ea, <- Eb in H.
  now apply key_le_stamps.
Qed.

End MoreQueries.

(** X6. After any history, the counts of [get_task_stats] add up: total is
    the number of rows and is pending plus completed, and the overdue count
    lies between 0 and pending. When the tasks written were stamped, the
    three listings return and total, pending and completed are their
    lengths. *)
Theorem stats_counts_add_up (ops : list op) (utc_now : datetime) :
  total (get_task_stats utc_now (run ops))
  = Z.of_nat (List.length (rows (run ops))) /\
  total (get_task_stats utc_now (run ops))
  = pending (get_task_stats utc_now (run ops))
    + completed_count (get_task_stats utc_now (run ops)) /\
  0 <= overdue (get_task_stats utc_now (run ops))
    <= pending (get_task_stats utc_now (run ops)) /\
  (forallb stamped_op ops = true ->
   exists la lp lc,
     get_all_tasks (run ops) = Ok la /\
     get_pending_tasks (run ops) = Ok lp /\
     get_completed_tasks (run ops) = Ok lc /\
     total (get_task_stats utc_now (run ops)) = Z.of_nat (List.length la) /\
     pending (get_task_stats utc_now (run ops)) = Z.of_nat (List.length lp) /\
     completed_count (get_task_stats utc_now (run ops))
     = Z.of_nat (List.length lc)).
Proof.
  pose proof (run_table ops) as (Hflags & _).
  set (db := run ops) in *.
  unfold get_task_stats, count. cbn [total pending completed_count overdue].
  rewrite filter_true.
  split; [reflexivity |]. split; [| split].
  - pose proof (Permutation_length
                  (filter_completed_Permutation (rows db) Hflags)) as L.
    rewrite length_app in L. lia.
  - pose proof (length_filter_imp _ _ (rows db)
                  (overdue_where_pending (datetime_now utc_now))). lia.
  - intros Hops. pose proof (run_ok ops Hops) as Hdb. fold db in Hdb.
    destruct (select_returns db (fun _ => true) (desc r_created_at) Hdb)
      as (la & Ma & Ra).
    destruct (select_returns db (fun r => r_completed r =? FALSE)
                (desc r_created_at) Hdb) as (lp & Mp & Rp).
    destruct (select_returns db (fun r => r_completed r =? TRUE)
                (desc r_completed_at) Hdb) as (lc & Mc & Rc).
    exists la, lp, lc.
    split; [rewrite get_all_tasks_select; exact Ma |].
    split; [exact Mp |]. split; [exact Mc |].
    rewrite <- (Forall2_length_eq _ _ _ Ra), <- (Forall2_length_eq _ _ _ Rp),
      <- (Forall2_length_eq _ _ _ Rc).
    rewrite !(Permutation_length (order_by_Permutation _ _)).
    rewrite filter_true. repeat split.
Qed.

(** X7. In every database reached from a fresh file by calls on stamped
    tasks, the pending listing runs from the newest [created_at] to the
    oldest and the completed listing from the latest [completed_at] to the
    earliest, a completed task without [completed_at] last; and each holds
    exactly the tasks of the full listing with that completed flag. *)
Theorem listings_are_ordered (ops : list op) :
  forallb stamped_op ops = true ->
  exists la lp lc,
    get_all_tasks (run ops) = Ok la /\
    get_pending_tasks (run ops) = Ok lp /\
    get_completed_tasks (run ops) = Ok lc /\
    newest_first la /\ newest_first lp /\ latest_completed_first lc /\
    (forall t, In t lp <-> In t la /\ completed t = false) /\
    (forall t, In t lc <-> In t la /\ completed t = true).
Proof.
  intros Hops. pose proof (run_ok ops Hops) as Hdb.
  set (db := run ops) in *.
  destruct (select_returns db (fun _ => true) (desc r_created_at) Hdb)
    as (la & Ma & Ra).
  destruct (select_returns db (fun r => r_completed r =? FALSE)
              (desc r_created_at) Hdb) as (lp & Mp & Rp).
  destruct (select_returns db (fun r => r_completed r =? TRUE)
              (desc r_completed_at) Hdb) as (lc & Mc & Rc).
  assert (Sel : forall c l le,
            mapM _task_from_row
              (order_by le (filter (fun r => r_completed r =? c) (rows db)))
            = Ok l ->
            (c = 0 \/ c = 1) ->
            forall t, In t l <-> In t la /\ completed t = negb (c =? 0)).
  { intros c l le M Hc t.
    rewrite (select_In db _ _ l t M), (select_In db _ _ la t Ma). split.
    - intros (r & Hr & Cr & Fr). split; [eauto |].
      apply _task_from_row_basic in Fr as (_ & E).
      apply Z.eqb_eq in Cr. now subst.
    - intros ((r & Hr & _ & Fr) & E). exists r.
      split; [assumption |]. split; [| assumption].
      destruct (_task_from_row_basic r t Fr) as (_ & E').
      rewrite E' in E. apply Z.eqb_eq.
      destruct (Z.eqb_spec (r_completed r) 0) as [Z0 | Z0];
        destruct Hc as [-> | ->]; cbn in E; try discriminate; try assumption.
      destruct Hdb as (Hrows & _). rewrite Forall_forall in Hrows.
      destruct (Hrows r Hr) as ([F | F] & _); [contradiction | assumption]. }
  exists la, lp, lc.
  split; [rewrite get_all_tasks_select; exact Ma |].
  split; [exact Mp |]. split; [exact Mc |].
  rewrite filter_true in Ra.
  split; [| split; [| split; [| split]]].
  - eapply newest_first_of_rows; [exact Ra |].
    apply order_by_Sorted, desc_total.
  - eapply newest_first_of_rows; [exact Rp |].
    apply order_by_Sorted, desc_total.
  - eapply latest_completed_first_of_rows; [exact Rc |].
    apply order_by_Sorted, desc_total.
  - apply (Sel FALSE lp _ Mp). now left.
  - apply (Sel TRUE lc _ Mc). now right.
Qed.


(* ===================================================================== *)
(** * Further properties of the task record *)
(* ===================================================================== *)

Section MoreTags.

Lemma list_remove_absent x l : ~ In x l -> list_remove x l = l.
Proof.
  induction l as [| y l IH]; simpl; intros H; [reflexivity |].
  destruct (String.eqb_spec x y) as [E | E]; [exfalso; auto |].
  rewrite IH by tauto. reflexivity.
Qed.

Lemma list_remove_first x l :
  In x l ->
  exists before after,
    l = (before ++ x :: after)%list /\ ~ In x before /\
    list_remove x l = (before ++ after)%list.
Proof.
  induction l as [| y l IH]; simpl; [tauto |].
  intros H. destruct (String.eqb_spec x y) as [E | E].
  - subst y. exists [], l. simpl. tauto.
  - destruct IH as (b & a & El & Hb & Er); [destruct H; congruence |].
    exists (y :: b), a. simpl. rewrite Er, <- El.
    repeat split. intros [F | F]; [congruence | contradiction].
Qed.

Lemma list_remove_append x l : ~ In x l -> list_remove x (l ++ [x]) = l.
Proof.
  induction l as [| y l IH]; simpl; intros H.
  - now rewrite String.eqb_refl.
  - destruct (String.eqb_spec x y) as [E | E]; [exfalso; auto |].
    rewrite IH by tauto. reflexivity.
Qed.

Lemma NoDup_snoc {A : Type} (x : A) l :
  NoDup l -> ~ In x l -> NoDup (l ++ [x]).
Proof.
  intros ND H. apply NoDup_app; [assumption | repeat constructor; simpl; tauto |].
  intros y Hy [<- | []]. contradiction.
Qed.

End MoreTags.

(** X9. [remove_tag] on a task that does not have the tag returns the
    task as it was, [updated_at] included. On a task that has it, it drops
    the first occurrence only, keeps the other tags in their order, sets
    [updated_at] to the clock reading and keeps every other field; a tag
    listed twice is still there afterwards. *)
Theorem remove_tag_drops_first (now : datetime) (x : string) (t : Task) :
  (~ In x (tags t) -> remove_tag now x t = t) /\
  (In x (tags t) ->
   exists before after,
     tags t = (before ++ x :: after)%list /\ ~ In x before /\
     remove_tag now x t
     = set_updated_at (Some now) (set_tags (before ++ after) t) /\
     (In x (tags (remove_tag now x t)) <-> In x after)).
Proof.
  split.
  - intros H. apply mem_not_In in H. unfold remove_tag. now rewrite H.
  - intros H. destruct (list_remove_first x (tags t) H) as (b & a & E & Hb & R).
    exists b, a. split; [exact E |]. split; [exact Hb |].
    apply mem_In in H. unfold remove_tag. rewrite H, R.
    split; [reflexivity |]. cbn [tags set_updated_at set_tags].
    rewrite in_app_iff. tauto.
Qed.

(** X10. Adding a tag the task does not have and then removing it gives
    back the tags as they were. A tag list without repetition stays so
    under [add_tag] and [remove_tag]; after [add_tag] the tag is present,
    and after [remove_tag] on such a list it is absent. *)
Theorem add_then_remove_tag (n1 n2 : datetime) (x : string) (t : Task) :
  (~ In x (tags t) -> tags (remove_tag n2 x (add_tag n1 x t)) = tags t) /\
  In x (tags (add_tag n1 x t)) /\
  (NoDup (tags t) ->
   NoDup (tags (add_tag n1 x t)) /\
   NoDup (tags (remove_tag n1 x t)) /\
   ~ In x (tags (remove_tag n1 x t))).
Proof.
  assert (Add : tags (add_tag n1 x t)
                = if mem x (tags t) then tags t else (tags t ++ [x])%list).
  { unfold add_tag. destruct (mem x (tags t)); reflexivity. }
  assert (Rem : forall n u, tags (remove_tag n x u) = list_remove x (tags u)).
  { intros n u. unfold remove_tag. destruct (mem x (tags u)) eqn:M.
    - reflexivity.
    - apply mem_not_In in M. now rewrite list_remove_absent. }
  split; [| split].
  - intros H. rewrite Rem, Add.
    apply mem_not_In in H as M. rewrite M. now apply list_remove_append.
  - rewrite Add. destruct (mem x (tags t)) eqn:M.
    + now apply mem_In.
    + apply in_or_app. right. now left.
  - intros ND. split; [| split].
    + rewrite Add. destruct (mem x (tags t)) eqn:M; [assumption |].
      apply NoDup_snoc; [assumption | now apply mem_not_In].
    + rewrite Rem. destruct (in_dec string_dec x (tags t)) as [H | H].
      * destruct (list_remove_first x _ H) as (b & a & E & _ & R).
        rewrite R. rewrite E in ND. now apply NoDup_remove_1 in ND.
      * now rewrite list_remove_absent.
    + rewrite Rem. destruct (in_dec string_dec x (tags t)) as [H | H].
      * destruct (list_remove_first x _ H) as (b & a & E & _ & R).
        rewrite R. rewrite E in ND. now apply NoDup_remove_2 in ND.
      * now rewrite list_remove_absent.
Qed.

Section Chronology.

Lemma lex_Gt_iff a b : lex a b = Gt <-> a = Gt \/ (a = Eq /\ b = Gt).
Proof. destruct a; cbn; intuition congruence. Qed.

Lemma lex_Lt_iff a b : lex a b = Lt <-> a = Lt \/ (a = Eq /\ b = Lt).
Proof. destruct a; cbn; intuition congruence. Qed.

Lemma lex_Eq_iff a b : lex a b = Eq <-> a = Eq /\ b = Eq.
Proof. destruct a; cbn; intuition congruence. Qed.

(** [a] is after [b], field by field. *)
Lemma datetime_compare_Gt a b :
  datetime_compare a b = Gt <->
  year (date_of b) < year (date_of a) \/
  (year (date_of a) = year (date_of b) /\
   (month (date_of b) < month (date_of a) \/
    (month (date_of a) = month (date_of b) /\
     (day (date_of b) < day (date_of a) \/
      (day (date_of a) = day (date_of b) /\
       (hour b < hour a \/
        (hour a = hour b /\
         (minute b < minute a \/
          (minute a = minute b /\
           (second b < second a \/
            (second a = second b /\
             microsecond b < microsecond a))))))))))).
Proof.
  unfold datetime_compare, date_compare.
  rewrite !lex_Gt_iff, !lex_Eq_iff, !Z.compare_gt_iff, !Z.compare_eq_iff.
  lia.
Qed.

End Chronology.

(** X11. [is_overdue] holds exactly of a task that is not completed and
    whose due date is set and strictly before the clock reading: a task due
    at the very instant of the reading is not overdue. Once it holds it
    holds at every later reading; and it never holds after
    [mark_completed], nor after the due date was cleared. *)
Theorem is_overdue_over_time (now later : datetime) (t : Task) :
  (is_overdue now t = true <->
   completed t = false /\
   exists d, due_date t = Some d /\ datetime_compare now d = Gt) /\
  (due_date t = Some now -> is_overdue now t = false) /\
  (is_overdue now t = true -> not_after now later ->
   is_overdue later t = true) /\
  (forall n1 n2, is_overdue later (mark_completed n1 n2 t) = false) /\
  (forall n, is_overdue later (update_due_date n None t) = false).
Proof.
  assert (Iff : forall n, is_overdue n t = true <->
            completed t = false /\
            exists d, due_date t = Some d /\ datetime_compare n d = Gt).
  { intros n. unfold is_overdue, datetime_gtb.
    destruct (due_date t) as [d |].
    - rewrite some_exists.
      destruct (completed t), (datetime_compare n d);
        intuition congruence.
    - split; [discriminate | intros (_ & d & E & _); discriminate]. }
  split; [apply Iff |]. split; [| split; [| split]].
  - intros E. destruct (is_overdue now t) eqn:O; [| reflexivity].
    apply Iff in O as (_ & d & Ed & G). rewrite E in Ed. injection Ed as <-.
    apply datetime_compare_Gt in G. lia.
  - intros O L. apply Iff in O as (C & d & Ed & G).
    apply Iff. split; [exact C |]. exists d. split; [exact Ed |].
    unfold not_after in L. rewrite datetime_compare_Gt in *. lia.
  - intros n1 n2. unfold is_overdue, mark_completed. cbn.
    destruct (due_date t); reflexivity.
  - reflexivity.
Qed.

(* ===================================================================== *)
(** * Properties of the input helpers *)
(* ===================================================================== *)

Section Stripping.


Lemma all_chars_lstrip f s :
  all_chars f s = true -> all_chars f (lstrip s) = true.
Proof.
  induction s as [| c s IH]; simpl; [reflexivity |].
  rewrite andb_true_iff. intros (Hc & Hs).
  destruct (is_space c); [auto |]. simpl. now rewrite Hc, Hs.
Qed.

Lemma all_chars_rstrip f s :
  all_chars f s = true -> all_chars f (rstrip s) = true.
Proof.
  induction s as [| c s IH]; simpl; [reflexivity |].
  rewrite andb_true_iff. intros (Hc & Hs). specialize (IH Hs).
  destruct (rstrip s) as [| d r].
  - destruct (is_space c); simpl; [reflexivity | now rewrite Hc].
  - cbn [all_chars] in *. now rewrite Hc, IH.
Qed.

Lemma all_chars_strip f s :
  all_chars f s = true -> all_chars f (strip s) = true.
Proof. intros H. now apply all_chars_rstrip, all_chars_lstrip. Qed.



End Stripping.

Section Integers.









End Integers.


Section Truncation.

Lemma length_substring k s :
  String.length (substring 0 k s) = Nat.min k (String.length s).
Proof.
  revert s. induction k as [| k IH]; intros [| c s]; simpl; try reflexivity.
  now rewrite IH.
Qed.

Lemma length_slice_to k s :
  Z.of_nat (String.length (slice_to k s))
  = if k <? 0 then Z.max (Z.of_nat (String.length s) + k) 0
    else Z.min k (Z.of_nat (String.length s)).
Proof.
  unfold slice_to. destruct (Z.ltb_spec k 0); rewrite length_substring; lia.
Qed.

End Truncation.

(** X13. [truncate_text] returns a text that fits unchanged. A longer
    text is cut to its first [max_length - 3] characters followed by three
    dots, which is exactly [max_length] characters when [max_length] is at
    least 3, so that truncating twice is truncating once. When
    [max_length] is below 3 the result of cutting is longer than
    [max_length]. *)
Theorem truncate_text_length (text : string) (max_length : Z) :
  (Z.of_nat (String.length text) <= max_length ->
   truncate_text text max_length = text) /\
  (max_length < Z.of_nat (String.length text) ->
   truncate_text text max_length
   = (slice_to (max_length - 3) text ++ "...")%string /\
   (3 <= max_length ->
    Z.of_nat (String.length (truncate_text text max_length)) = max_length /\
    slice_to (max_length - 3) text
    = substring 0 (Z.to_nat (max_length - 3)) text) /\
   (max_length < 3 ->
    max_length
    < Z.of_nat (String.length (truncate_text text max_length)))) /\
  (3 <= max_length ->
   Z.of_nat (String.length (truncate_text text max_length)) <= max_length /\
   truncate_text (truncate_text text max_length) max_length
   = truncate_text text max_length).
Proof.
  assert (Cut : max_length < Z.of_nat (String.length text) ->
                truncate_text text max_length
                = (slice_to (max_length - 3) text ++ "...")%string).
  { intros H. unfold truncate_text.
    destruct (Z.leb_spec (Z.of_nat (String.length text)) max_length);
      [lia | reflexivity]. }
  assert (Fit : forall s, Z.of_nat (String.length s) <= max_length ->
                          truncate_text s max_length = s).
  { intros s H. unfold truncate_text.
    destruct (Z.leb_spec (Z.of_nat (String.length s)) max_length);
      [reflexivity | lia]. }
  assert (Len : max_length < Z.of_nat (String.length text) ->
                Z.of_nat (String.length (truncate_text text max_length))
                = (if max_length - 3 <? 0
                   then Z.max (Z.of_nat (String.length text)
                               + (max_length - 3)) 0
                   else Z.min (max_length - 3)
                          (Z.of_nat (String.length text))) + 3).
  { intros H. rewrite (Cut H), length_append, Nat2Z.inj_add, length_slice_to.
    reflexivity. }
  split; [apply Fit |]. split.
  - intros H. split; [apply Cut, H |]. split.
    + intros M. split.
      * rewrite (Len H). destruct (Z.ltb_spec (max_length - 3) 0); lia.
      * unfold slice_to. destruct (Z.ltb_spec (max_length - 3) 0); [lia |].
        reflexivity.
    + intros M. rewrite (Len H).
      destruct (Z.ltb_spec (max_length - 3) 0); lia.
  - intros M.
    destruct (Z.le_gt_cases (Z.of_nat (String.length text)) max_length)
      as [H | H].
    + rewrite (Fit text H). split; [assumption | apply Fit, H].
    + assert (L : Z.of_nat (String.length (truncate_text text max_length))
                  = max_length).
      { rewrite (Len H). destruct (Z.ltb_spec (max_length - 3) 0); lia. }
      split; [lia |]. apply Fit. lia.
Qed.

Section TagPieces.

Lemma re_split_runs_clean sep s : forall b,
  Forall (fun p => all_chars (fun c => negb (sep c)) p = true)
    (re_split_runs sep b s).
Proof.
  induction s as [| c s IH]; intros b; cbn [re_split_runs].
  - repeat constructor.
  - destruct (sep c) eqn:S.
    + destruct b; [apply IH | constructor; [reflexivity | apply IH]].
    + specialize (IH false). destruct (re_split_runs sep false s) as [| p ps].
      * constructor; [cbn; now rewrite S | constructor].
      * inversion IH; subst. constructor; [cbn; now rewrite S | assumption].
Qed.

(** The tags built by the loop of [parse_tags] are not empty and hold no
    comma, semicolon or whitespace. *)
Lemma tag_pieces_clean s x :
  In x (tag_pieces s) ->
  x <> "" /\ all_chars (fun c => negb (is_tag_separator c)) x = true.
Proof.
  unfold tag_pieces. intros H. apply filter_In in H as (H & T).
  split; [intros ->; discriminate |].
  apply in_map_iff in H as (p & <- & Hp).
  apply all_chars_strip.
  pose proof (re_split_runs_clean is_tag_separator (strip s) false) as F.
  rewrite Forall_forall in F. now apply F.
Qed.

Lemma no_separator_no_comma x :
  all_chars (fun c => negb (is_tag_separator c)) x = true ->
  occurs "," x = false.
Proof.
  induction x as [| c x IH]; cbn [all_chars occurs]; [reflexivity |].
  rewrite andb_true_iff. intros (Hc & Hx). rewrite (IH Hx), orb_false_r.
  unfold is_tag_separator in Hc. rewrite (Ascii.eqb_sym "," c).
  destruct (Ascii.eqb c ","); [discriminate | reflexivity].
Qed.

(** A list of such tags survives the comma-joined column. *)
Lemma clean_tags_plain l :
  (forall x, In x l ->
     x <> "" /\ all_chars (fun c => negb (is_tag_separator c)) x = true) ->
  plain_tags l = true.
Proof.
  intros H. unfold plain_tags. apply andb_true_iff. split.
  - apply forallb_forall. intros x Hx. apply negb_true_iff.
    apply no_separator_no_comma. now apply H.
  - destruct l as [| x l]; [reflexivity |].
    destruct x as [| c x]; [| reflexivity].
    destruct (H "" (or_introl eq_refl)) as (N & _). congruence.
Qed.

Lemma parse_tags_In f v x :
  set_order f ->
  (In x (parse_tags f v) <-> exists s, v = Some s /\ In x (tag_pieces s)).
Proof.
  intros O. unfold parse_tags. destruct v as [s |].
  - destruct s as [| c s]; cbn [truthy].
    + split; [intros [] | intros (s & E & H)].
      injection E as <-. exact H.
    + destruct (O (tag_pieces (String c s))) as (_ & I). rewrite I.
      split; [eauto | intros (s' & E & H)]. injection E as <-. exact H.
  - split; [intros [] | intros (s & E & _); discriminate].
Qed.

Lemma parse_tags_clean f v x :
  set_order f -> In x (parse_tags f v) ->
  x <> "" /\ all_chars (fun c => negb (is_tag_separator c)) x = true.
Proof.
  intros O H. apply (parse_tags_In f v x O) in H as (s & _ & H).
  now apply tag_pieces_clean in H.
Qed.


Lemma set_order_last_copies : set_order last_copies.
Proof.
  intros l. split; [apply NoDup_nodup | intros x; apply nodup_In].
Qed.

End TagPieces.

(** X14. Whatever order [list(set(...))] gives, [parse_tags] returns no
    tag twice, and every tag it returns is one of the pieces of the text,
    is not empty and holds no comma, semicolon or whitespace; so the tags
    survive the comma-joined column of the store. No text, or the empty
    text, gives no tags. *)
Theorem parse_tags_gives_plain_tags
  (list_of_set : list string -> list string) (tags_str : option string) :
  set_order list_of_set ->
  NoDup (parse_tags list_of_set tags_str) /\
  (forall x, In x (parse_tags list_of_set tags_str) <->
             exists s, tags_str = Some s /\ In x (tag_pieces s)) /\
  (forall x, In x (parse_tags list_of_set tags_str) ->
             x <> "" /\
             all_chars (fun c => negb (is_tag_separator c)) x = true) /\
  plain_tags (parse_tags list_of_set tags_str) = true /\
  parse_tags list_of_set None = [] /\
  parse_tags list_of_set (Some "") = [].
Proof.
  intros O. split; [| split; [| split; [| split; [| split]]]].
  - unfold parse_tags. destruct tags_str as [s |]; [| constructor].
    destruct (truthy s); [apply O | constructor].
  - intros x. now apply parse_tags_In.
  - intros x. now apply parse_tags_clean.
  - apply clean_tags_plain. intros x. now apply parse_tags_clean.
  - reflexivity.
  - reflexivity.
Qed.

(* ===================================================================== *)
(** * Properties of the table counts and of the commands *)
(* ===================================================================== *)

Section TableCounts.





End TableCounts.


Section Commands.




End Commands.



Section TodayAndUpcoming.




Lemma nonempty_true {A : Type} (l : list A) : nonempty l = true -> l <> [].
Proof. destruct l; [discriminate | discriminate]. Qed.


End TodayAndUpcoming.



Section AddCommand.



End AddCommand.


Section EditCommand.








End EditCommand.


(* ===================================================================== *)
(** * Search never misses a match *)
(* ===================================================================== *)

Section SearchComplete.











End SearchComplete.


Section ListCommand.



End ListCommand.


(* ===================================================================== *)
(** * The further theorems at sample inputs *)
(* ===================================================================== *)

Section SampleFacts.


Lemma get_stored_bread : get_task (run shop_history) 2 = Ok (Some stored_bread).
Proof. vm_compute. reflexivity. Qed.

End SampleFacts.

Lemma writes_leave_other_ids_witness :
  1 <> next_rowid shop /\ id bread_done <> Some 1 /\ 3 <> 1 /\
  get_task (fst (create_task shop rent)) 1 = get_task shop 1 /\
  get_task (fst (update_task shop bread_done)) 1 = get_task shop 1 /\
  get_task (fst (delete_task shop 3)) 1 = get_task shop 1.
Proof.
  assert (H1 : 1 <> next_rowid shop) by discriminate.
  assert (H2 : id bread_done <> Some 1) by discriminate.
  assert (H3 : 3 <> 1) by discriminate.
  destruct (writes_leave_other_ids shop rent 3 1) as (A & _ & C).
  destruct (writes_leave_other_ids shop bread_done 3 1) as (_ & B & _).
  split; [exact H1 |]. split; [exact H2 |]. split; [exact H3 |].
  split; [exact (A H1) |]. split; [exact (B H2) | exact (C H3)].
Defined.

Lemma update_then_get_witness :
  forallb stamped_op shop_history = true /\
  stamped bread_done = true /\ plain_tags (tags bread_done) = true /\
  id bread_done = Some 2 /\
  get_task (run shop_history) 2 = Ok (Some stored_bread) /\
  get_task (fst (update_task (run shop_history) bread_done)) 2
  = Ok (Some (set_created_at (created_at stored_bread) bread_done)).
Proof.
  split; [reflexivity |]. split; [reflexivity |]. split; [reflexivity |].
  split; [reflexivity |].
  split; [exact get_stored_bread |].
  exact (update_then_get shop_history bread_done stored_bread 2
           eq_refl eq_refl eq_refl eq_refl get_stored_bread).
Defined.

Lemma stats_counts_add_up_witness :
  forallb stamped_op history = true /\
  total (get_task_stats noon (run history))
  = pending (get_task_stats noon (run history))
    + completed_count (get_task_stats noon (run history)) /\
  exists la,
    get_all_tasks (run history) = Ok la /\
    total (get_task_stats noon (run history)) = Z.of_nat (List.length la).
Proof.
  split; [reflexivity |].
  destruct (stats_counts_add_up history noon) as (_ & Sum & _ & Lists).
  split; [exact Sum |].
  destruct (Lists eq_refl) as (la & _ & _ & Ma & _ & _ & Ta & _).
  exists la. split; assumption.
Defined.

Lemma listings_are_ordered_witness :
  forallb stamped_op history = true /\
  exists lp lc,
    get_pending_tasks (run history) = Ok lp /\
    get_completed_tasks (run history) = Ok lc /\
    newest_first lp /\ latest_completed_first lc.
Proof.
  split; [reflexivity |].
  destruct (listings_are_ordered history eq_refl)
    as (la & lp & lc & _ & Mp & Mc & _ & Np & Lc & _).
  exists lp, lc. split; [exact Mp |]. split; [exact Mc |].
  split; [exact Np | exact Lc].
Defined.


Lemma remove_tag_drops_first_witness :
  ~ In "urgent" (tags milk) /\ remove_tag noon "urgent" milk = milk /\
  In "shopping" (tags milk) /\
  exists before after,
    tags milk = (before ++ "shopping" :: after)%list /\
    remove_tag noon "shopping" milk
    = set_updated_at (Some noon) (set_tags (before ++ after) milk).
Proof.
  assert (N : ~ In "urgent" (tags milk)) by (intros [E | []]; discriminate E).
  assert (P : In "shopping" (tags milk)) by (left; reflexivity).
  destruct (remove_tag_drops_first noon "urgent" milk) as (Absent & _).
  destruct (remove_tag_drops_first noon "shopping" milk) as (_ & Present).
  split; [exact N |]. split; [exact (Absent N) |]. split; [exact P |].
  destruct (Present P) as (b & a & E & _ & R & _).
  exists b, a. split; assumption.
Defined.

Lemma add_then_remove_tag_witness :
  ~ In "urgent" (tags milk) /\ NoDup (tags milk) /\
  tags (remove_tag ten "urgent" (add_tag noon "urgent" milk)) = tags milk /\
  NoDup (tags (add_tag noon "urgent" milk)).
Proof.
  assert (N : ~ In "urgent" (tags milk)) by (intros [E | []]; discriminate E).
  assert (D : NoDup (tags milk)) by (repeat constructor; intros []).
  destruct (add_then_remove_tag noon ten "urgent" milk) as (Back & _ & Keep).
  split; [exact N |]. split; [exact D |]. split; [exact (Back N) |].
  exact (proj1 (Keep D)).
Defined.

Lemma is_overdue_over_time_witness :
  is_overdue ten rent = true /\ not_after ten noon /\
  is_overdue noon rent = true /\
  is_overdue noon (mark_completed ten ten rent) = false.
Proof.
  assert (O : is_overdue ten rent = true) by reflexivity.
  assert (L : not_after ten noon) by discriminate.
  destruct (is_overdue_over_time ten noon rent) as (_ & _ & Later & Done & _).
  split; [exact O |]. split; [exact L |].
  split; [exact (Later O L) | apply Done].
Defined.


Lemma truncate_text_length_witness :
  20 < Z.of_nat (String.length "This is a very long text") /\ 3 <= 20 /\
  Z.of_nat (String.length (truncate_text "This is a very long text" 20)) = 20 /\
  truncate_text (truncate_text "This is a very long text" 20) 20
  = truncate_text "This is a very long text" 20.
Proof.
  assert (L : 20 < Z.of_nat (String.length "This is a very long text"))
    by reflexivity.
  assert (M : 3 <= 20) by discriminate.
  destruct (truncate_text_length "This is a very long text" 20)
    as (_ & Cut & Twice).
  split; [exact L |]. split; [exact M |].
  destruct (Cut L) as (_ & Exact & _).
  split; [exact (proj1 (Exact M)) | exact (proj2 (Twice M))].
Defined.

Lemma parse_tags_gives_plain_tags_witness :
  set_order last_copies /\
  NoDup (parse_tags last_copies (Some "work, urgent;work")) /\
  plain_tags (parse_tags last_copies (Some "work, urgent;work")) = true.
Proof.
  split; [exact set_order_last_copies |].
  destruct (parse_tags_gives_plain_tags last_copies
              (Some "work, urgent;work") set_order_last_copies)
    as (D & _ & _ & P & _).
  split; assumption.
Defined.









